(** * password_checker.py: entropy-based password strength estimation

    A shallow embedding of [src/password_checker.py] and the proofs of the
    properties stated about it.

    Conventions of the embedding.
    - A Python [str] is the list of its code points ([N]); [ord] is the
      injection into [Z], where the source subtracts code points.
    - A Python [set] of strings is a [gset str]; an argument that may be
      [None] is an [option].
    - The float accumulator [penalty] only ever holds sums of [5] and [10];
      it is represented by the integer it holds ([Z]) and injected with
      [IZR] where it enters float arithmetic.
    - The remaining floats ([base_entropy], [effective_entropy]) are real
      numbers: rounding is not modelled, [math.log2 x] is [ln x / ln 2].
    - A raised exception is a value of [result]; the functions that can
      reach a raising operation live in that monad.
    - [str.lower] and the regex class [\d] are concrete on ASCII; what
      they do outside ASCII is read from two Unicode tables. The tables and
      the module-level global [COMMON_PASSWORDS] (filled from a file when
      the module is imported) are variables of the section [Checker].
    - The word list file is what [open] finds, no file or its lines; what
      [print] writes is returned as the list of the printed lines. *)

From Stdlib Require Import ZArith NArith List Reals Lra Lia String Ascii.
From stdpp Require Import base gmap sets list.

(** ** Python values *)

Definition char := N.
Definition str := list N.

Definition ord (c : char) : Z := Z.of_N c.

(** The code points of an ASCII literal. *)
Definition str_of (s : string) : str :=
  map N_of_ascii (list_ascii_of_string s).

(** [range(a, b)] *)
Definition range (a b : nat) : list nat := seq a (b - a).

(** [s[i:j]] for non-negative [i], [j] (out-of-range bounds are clamped, as
    Python does). *)
Definition slice (s : str) (i j : nat) : str := firstn (j - i) (skipn i s).

(** [sub in s] on strings: [sub] occurs in [s] as a contiguous substring. *)
Fixpoint starts_with (sub s : str) : bool :=
  match sub, s with
  | [], _ => true
  | a :: sub', b :: s' => (a =? b)%N && starts_with sub' s'
  | _ :: _, [] => false
  end.

Fixpoint str_contains (sub s : str) : bool :=
  starts_with sub s
  || match s with
     | [] => false
     | _ :: s' => str_contains sub s'
     end.

(** ** Exceptions *)

Inductive exn : Type := TypeError.

Inductive result (A : Type) : Type :=
| Return (a : A)
| Raise (e : exn).
Arguments Return {A} a.
Arguments Raise {A} e.

Definition bind {A B : Type} (m : result A) (k : A -> result B) : result B :=
  match m with
  | Return a => k a
  | Raise e => Raise e
  end.

Notation "'let*' x := m 'in' k" := (bind m (fun x => k))
  (at level 10, x name, m at level 100, k at level 200).

(** A [for] loop whose body returns [True] from the enclosing function on a
    hit: the first hit (or the first exception) ends the loop. *)
Fixpoint for_return_true {A : Type} (body : A -> result bool) (l : list A)
  : result bool :=
  match l with
  | [] => Return false
  | x :: l' => let* hit := body x in
               if hit then Return true else for_return_true body l'
  end.

(** [x in container], where [container] is a set or [None]: membership in
    [None] raises [TypeError]. *)
Definition py_in (x : str) (container : option (gset str)) : result bool :=
  match container with
  | None => Raise TypeError
  | Some d => Return (bool_decide (x ∈ d))
  end.

(** Truth value of an object that is a set or [None]. *)
Definition truthy (container : option (gset str)) : bool :=
  match container with
  | None => false
  | Some d => negb (bool_decide (d = ∅))
  end.

(** ** Regular expressions of the source *)

(** [re.search('[...]', s)] for a one-character class. *)
Definition re_search_class (cls : char -> bool) (s : str) : bool :=
  existsb cls s.

(** [[a-z]] and [[A-Z]] *)
Definition lower_class (c : char) : bool := ((97 <=? c) && (c <=? 122))%N.
Definition upper_class (c : char) : bool := ((65 <=? c) && (c <=? 90))%N.

(** The members of the punctuation class of lines 40 and 116, in the order
    of the pattern: the thirteen characters up to the question mark, the
    double quote (code point 34), then the six from the colon on. *)
Definition PUNCTUATION : str :=
  str_of "!@#$%^&*(),.?" ++ [34%N] ++ str_of ":{}|<>".

Definition punctuation_class (c : char) : bool :=
  existsb (N.eqb c) PUNCTUATION.

(** [re.search(r'(.)\1{2,}', s)]: a character matched by [.] (any character
    but the newline, code point 10) followed by at least two copies of
    itself. *)
Fixpoint re_search_repeat (s : str) : bool :=
  match s with
  | a :: ((b :: c :: _) as s') =>
      (negb (a =? 10) && (b =? a) && (c =? a))%N || re_search_repeat s'
  | _ => false
  end.

(** ** Constants of the module *)

Definition KEYBOARD_PATTERNS : list str :=
  map str_of ["qwerty"; "asdfgh"; "zxcvbn"; "12345"; "password"; "admin"]%string.

Definition MSG_COMMON : string := "Password is too common.".
Definition MSG_SHORT : string :=
  "Password is too short; consider at least 8 characters.".
Definition MSG_DICTIONARY : string :=
  "Password contains dictionary words which makes it easier to guess.".
Definition MSG_PATTERNS : string :=
  "Password contains repeated or sequential patterns which reduce its strength.".
Definition MSG_LONGER : string :=
  "Consider using a longer password for increased security.".
Definition MSG_UPPERCASE : string :=
  "Adding uppercase letters can improve strength.".
Definition MSG_DIGITS : string := "Incorporating numbers can boost strength.".
Definition MSG_SPECIAL : string :=
  "Using special characters can further strengthen your password.".

(** [math.log2] *)
Definition log2 (x : R) : R := (ln x / ln 2)%R.

(** The dictionary returned by [evaluate_password_strength]. *)
Record EvaluationResult : Type := mkResult {
  password_of : str;
  length_of : nat;
  base_entropy : R;
  penalty_of : Z;
  effective_entropy : R;
  strength : string;
  feedback : list string
}.

(** Lines 131-140: the label of an effective entropy. *)
Definition strength_label (effective_entropy : R) : string :=
  if Rlt_dec effective_entropy 28 then "Very Weak"
  else if Rlt_dec effective_entropy 36 then "Weak"
  else if Rlt_dec effective_entropy 60 then "Moderate"
  else if Rlt_dec effective_entropy 128 then "Strong"
  else "Very Strong".

(** ** ASCII and the Unicode tables *)

Definition is_ascii (c : char) : bool := (c <? 128)%N.

(** The lowercase of an ASCII character, and the ASCII decimal digits. *)
Definition ascii_lower (c : char) : char :=
  if upper_class c then (c + 32)%N else c.

Definition ascii_decimal (c : char) : bool := ((48 <=? c) && (c <=? 57))%N.

(** Tables for the runs below, which are on ASCII passwords and never
    consult them. *)
Definition no_unicode_lower (s : str) (i : nat) : list char := [nth i s 0%N].
Definition no_unicode_decimal (c : char) : bool := false.

(** ASCII whitespace, as [str.strip] has it: the characters 9 to 13 and 28
    to 32. *)
Definition ascii_space (c : char) : bool :=
  ((9 <=? c) && (c <=? 13) || (28 <=? c) && (c <=? 32))%N.

Definition no_unicode_space (c : char) : bool := false.

(** Truth value of a string. *)
Definition str_truthy (s : str) : bool :=
  match s with
  | [] => false
  | _ :: _ => true
  end.

(** What [open(filepath, "r", encoding="utf-8")] finds: no file, or the
    lines that iterating over the file yields. The other failures of [open]
    and of decoding are outside the model. *)
Inductive file : Type :=
| Missing
| Lines (lines : list str).

(** The eight feedback messages in the order of the checks. *)
Definition ALL_MESSAGES : list string :=
  [MSG_COMMON; MSG_SHORT; MSG_DICTIONARY; MSG_PATTERNS; MSG_LONGER;
   MSG_UPPERCASE; MSG_DIGITS; MSG_SPECIAL].

(** The [n] consecutive code points from [c] upwards. *)
Definition ascending_run (c : char) (n : nat) : str :=
  map (fun k => (c + N.of_nat k)%N) (seq 0 n).

Section Checker.

(** The lowercase mapping of the character at index [i] of [s], for a
    character outside ASCII: one or several characters, which may depend on
    the neighbours (the final sigma). *)
Variable unicode_lower : str -> nat -> list char.
(** The decimal digits outside ASCII. *)
Variable unicode_decimal : char -> bool.
(** The module-level global of line 23. *)
Variable COMMON_PASSWORDS : gset str.

(** ** Builtins *)

(** [str.lower]: every character is replaced by its lowercase mapping. *)
Definition lower_at (s : str) (i : nat) : list char :=
  let c := nth i s 0%N in
  if is_ascii c then [ascii_lower c] else unicode_lower s i.

Definition str_lower (s : str) : str :=
  flat_map (lower_at s) (seq 0 (length s)).

(** The regex class [\d] on [str] patterns: the Unicode decimal digits. *)
Definition decimal_class (c : char) : bool :=
  if is_ascii c then ascii_decimal c else unicode_decimal c.

(** ** The functions of the module *)

(** The local variable [pool] of [calculate_base_entropy] at line 43. *)
Definition character_pool (password : str) : Z :=
  let pool := 0%Z in
  let pool := if re_search_class lower_class password
              then (pool + 26)%Z else pool in
  let pool := if re_search_class upper_class password
              then (pool + 26)%Z else pool in
  let pool := if re_search_class decimal_class password
              then (pool + 10)%Z else pool in
  let pool := if re_search_class punctuation_class password
              then (pool + 22)%Z else pool in
  pool.

Definition calculate_base_entropy (password : str) : R :=
  let pool := character_pool password in
  if negb (pool =? 0)%Z
  then (INR (length password) * log2 (IZR pool))%R
  else 0%R.

(** The body of the loop of lines 57-61 at index [i]. *)
Definition sequential_body (password : str) (penalty : Z) (i : nat) : Z :=
  let c0 := ord (nth i password 0%N) in
  let c1 := ord (nth (i + 1) password 0%N) in
  let c2 := ord (nth (i + 2) password 0%N) in
  if ((c1 - c0 =? 1) && (c2 - c1 =? 1))%Z then (penalty + 5)%Z
  else if ((c0 - c1 =? 1) && (c1 - c2 =? 1))%Z then (penalty + 5)%Z
  else penalty.

(** The body of the loop of lines 64-66 for one pattern. *)
Definition keyboard_body (password : str) (penalty : Z) (pattern : str) : Z :=
  if str_contains pattern (str_lower password) then (penalty + 10)%Z
  else penalty.

Definition penalty_for_repeated_and_sequential_patterns (password : str) : Z :=
  let penalty := 0%Z in
  let penalty := if re_search_repeat password
                 then (penalty + 10)%Z else penalty in
  let penalty := fold_left (sequential_body password)
                   (range 0 (length password - 2)) penalty in
  let penalty := fold_left (keyboard_body password)
                   KEYBOARD_PATTERNS penalty in
  penalty.

Definition check_dictionary_words
    (password : str) (dictionary : option (gset str)) : result bool :=
  let lower_pwd := str_lower password in
  let* whole := py_in lower_pwd dictionary in
  if whole then Return true
  else
    for_return_true
      (fun i =>
         for_return_true
           (fun j => py_in (slice lower_pwd i j) dictionary)
           (range (i + 4) (length lower_pwd + 1)))
      (range 0 (length lower_pwd)).

Definition get_password_feedback
    (password : str) (dictionary : option (gset str))
  : result (list string * Z) :=
  let feedback := [] in
  let penalty := penalty_for_repeated_and_sequential_patterns password in
  let feedback := if bool_decide (str_lower password ∈ COMMON_PASSWORDS)
                  then feedback ++ [MSG_COMMON] else feedback in
  let feedback := if (length password <? 8)%nat
                  then feedback ++ [MSG_SHORT] else feedback in
  let* found := (if truthy dictionary
                 then check_dictionary_words password dictionary
                 else Return false) in
  let feedback := if found then feedback ++ [MSG_DICTIONARY] else feedback in
  let feedback := if (0 <? penalty)%Z
                  then feedback ++ [MSG_PATTERNS] else feedback in
  let feedback := if (length password <? 12)%nat
                  then feedback ++ [MSG_LONGER] else feedback in
  let feedback := if negb (re_search_class upper_class password)
                  then feedback ++ [MSG_UPPERCASE] else feedback in
  let feedback := if negb (re_search_class decimal_class password)
                  then feedback ++ [MSG_DIGITS] else feedback in
  let feedback := if negb (re_search_class punctuation_class password)
                  then feedback ++ [MSG_SPECIAL] else feedback in
  Return (feedback, penalty).

Definition evaluate_password_strength
    (password : str) (dictionary : option (gset str))
  : result EvaluationResult :=
  let base_entropy := calculate_base_entropy password in
  let* fp := get_password_feedback password dictionary in
  let feedback := fst fp in
  let penalty := snd fp in
  let effective_entropy := Rmax (base_entropy - IZR penalty) 0 in
  let strength := strength_label effective_entropy in
  Return {| password_of := password;
            length_of := length password;
            base_entropy := base_entropy;
            penalty_of := penalty;
            effective_entropy := effective_entropy;
            strength := strength;
            feedback := feedback |}.

(** ** Definitions that follow the wording of the specification *)

(** What one character class adds to the pool: [size] if any character of
    the class is present. *)
Definition class_contribution
    (cls : char -> bool) (size : Z) (password : str) : Z :=
  if existsb cls password then size else 0%Z.

Definition spec_pool (password : str) : Z :=
  (class_contribution lower_class 26 password
   + class_contribution upper_class 26 password
   + class_contribution decimal_class 10 password
   + class_contribution punctuation_class 22 password)%Z.

(** A character of one of the four recognised classes. *)
Definition recognised (c : char) : bool :=
  lower_class c || upper_class c || decimal_class c || punctuation_class c.

(** A run of three identical consecutive characters. *)
Definition has_triple_run (password : str) : Prop :=
  exists (a : str) (c : char) (b : str), password = a ++ [c; c; c] ++ b.

(** What the repeated-character rule adds to the penalty. *)
Definition repeat_contribution (password : str) : Z :=
  if re_search_repeat password then 10%Z else 0%Z.

(** The triplet at index [i] increases by exactly 1 twice in a row, or
    decreases by exactly 1 twice in a row. *)
Definition ascending_triplet (password : str) (i : nat) : bool :=
  ((ord (nth (i + 1) password 0%N) =? ord (nth i password 0%N) + 1)
   && (ord (nth (i + 2) password 0%N) =? ord (nth (i + 1) password 0%N) + 1))%Z.

Definition descending_triplet (password : str) (i : nat) : bool :=
  ((ord (nth (i + 1) password 0%N) =? ord (nth i password 0%N) - 1)
   && (ord (nth (i + 2) password 0%N) =? ord (nth (i + 1) password 0%N) - 1))%Z.

Definition sequential_triplet (password : str) (i : nat) : bool :=
  ascending_triplet password i || descending_triplet password i.

(** The number of indices [0 <= i <= length - 3] with such a triplet. *)
Definition spec_sequential_count (password : str) : nat :=
  length (List.filter (sequential_triplet password)
            (seq 0 (length password - 2))).

(** The number of keyboard patterns that occur in the lowercased password. *)
Definition spec_keyboard_count (password : str) : nat :=
  length (List.filter (fun pattern => str_contains pattern (str_lower password))
            KEYBOARD_PATTERNS).

(** The lowercased password is a dictionary word, or has a contiguous
    substring of length at least 4 that is one. *)
Definition has_dictionary_word (d : gset str) (lower_pwd : str) : Prop :=
  lower_pwd ∈ d
  \/ exists (a w b : str), lower_pwd = a ++ w ++ b /\ 4 <= length w /\ w ∈ d.

(** A dictionary is supplied and the scanner returns true. *)
Definition dictionary_triggers
    (password : str) (dictionary : option (gset str)) : bool :=
  match dictionary with
  | None => false
  | Some d =>
      match check_dictionary_words password (Some d) with
      | Return true => true
      | _ => false
      end
  end.

(** The eight checks in their fixed order, each with its message. *)
Definition spec_checks
    (password : str) (dictionary : option (gset str)) : list (bool * string) :=
  [ (bool_decide (str_lower password ∈ COMMON_PASSWORDS), MSG_COMMON);
    ((length password <? 8)%nat, MSG_SHORT);
    (dictionary_triggers password dictionary, MSG_DICTIONARY);
    ((0 <? penalty_for_repeated_and_sequential_patterns password)%Z,
     MSG_PATTERNS);
    ((length password <? 12)%nat, MSG_LONGER);
    (negb (existsb upper_class password), MSG_UPPERCASE);
    (negb (existsb decimal_class password), MSG_DIGITS);
    (negb (existsb punctuation_class password), MSG_SPECIAL) ].

Definition spec_feedback
    (password : str) (dictionary : option (gset str)) : list string :=
  map snd (List.filter fst (spec_checks password dictionary)).

(** The five labels in increasing order. *)
Definition strength_rank (label : string) : nat :=
  if String.eqb label "Very Weak" then 0
  else if String.eqb label "Weak" then 1
  else if String.eqb label "Moderate" then 2
  else if String.eqb label "Strong" then 3
  else 4.

(** ** The word list file *)

(** Whitespace outside ASCII. *)
Variable unicode_space : char -> bool.

Definition space_class (c : char) : bool :=
  if is_ascii c then ascii_space c else unicode_space c.

(** [str.strip]: the leading whitespace is dropped, then the trailing. *)
Fixpoint lstrip (s : str) : str :=
  match s with
  | [] => []
  | c :: s' => if space_class c then lstrip s' else s
  end.

Definition str_strip (s : str) : str := rev (lstrip (rev (lstrip s))).

(** Lines 5-16. [fs] is the file system; the result is the returned set
    and the lines printed. *)
Definition load_common_passwords
    (fs : str -> file) (filepath : str) : gset str * list str :=
  match fs filepath with
  | Lines lines =>
      (list_to_set
         (map (fun line => str_lower (str_strip line))
            (List.filter (fun line => str_truthy (str_strip line)) lines)),
       [])
  | Missing =>
      (∅, [str_of "Error: Could not find the file: " ++ filepath])
  end.

(** ** Substrings *)

Lemma starts_with_spec (sub s : str) :
  starts_with sub s = true <-> exists b, s = sub ++ b.
Proof.
  revert s. induction sub as [|a sub IH]; intros s; simpl.
  - split; [intros _; exists s; reflexivity | reflexivity].
  - destruct s as [|c s].
    + split; [discriminate | intros [b Hb]; discriminate].
    + rewrite andb_true_iff, N.eqb_eq, IH. split.
      * intros [-> [b ->]]. exists b. reflexivity.
      * intros [b Hb]. injection Hb as -> ->. split; [reflexivity | eauto].
Qed.

Lemma str_contains_spec (sub s : str) :
  str_contains sub s = true <-> exists a b, s = a ++ sub ++ b.
Proof.
  induction s as [|c s IH].
  - simpl. rewrite orb_false_r, starts_with_spec. split.
    + intros [b Hb]. exists [], b. exact Hb.
    + intros [a [b Hab]]. destruct a; [eauto | discriminate].
  - change (str_contains sub (c :: s))
      with (starts_with sub (c :: s) || str_contains sub s).
    rewrite orb_true_iff, starts_with_spec, IH. split.
    + intros [[b Hb] | [a [b Hab]]].
      * exists [], b. exact Hb.
      * exists (c :: a), b. simpl. congruence.
    + intros [a [b Hab]]. destruct a as [|c' a].
      * left. exists b. exact Hab.
      * right. injection Hab as _ ->. eauto.
Qed.

(** The repeat pattern matches exactly when some character other than the
    newline occurs three times in a row. *)
Lemma re_search_repeat_spec (s : str) :
  re_search_repeat s = true
  <-> exists a c b, s = a ++ [c; c; c] ++ b /\ c <> 10%N.
Proof.
  induction s as [|x s IH].
  - simpl. split; [discriminate | intros (a & c & b & H & _)].
    destruct a; discriminate.
  - destruct s as [|y [|z s]].
    + simpl. split; [discriminate | intros (a & c & b & H & _)].
      destruct a as [|? [|? ?]]; discriminate.
    + simpl. split; [discriminate | intros (a & c & b & H & _)].
      destruct a as [|? [|? [|? ?]]]; discriminate.
    + change (re_search_repeat (x :: y :: z :: s))
        with ((negb (x =? 10) && (y =? x) && (z =? x))%N
              || re_search_repeat (y :: z :: s)).
      rewrite orb_true_iff, IH, !andb_true_iff, negb_true_iff,
        N.eqb_neq, !N.eqb_eq. split.
      * intros [[[Hx ->] ->] | (a & c & b & H & Hc)].
        -- exists [], x, s. split; [reflexivity | exact Hx].
        -- exists (x :: a), c, b. split; [rewrite H; reflexivity | exact Hc].
      * intros (a & c & b & H & Hc). destruct a as [|x' a].
        -- left. simpl in H. injection H as -> -> -> _. auto.
        -- right. simpl in H. injection H as _ H.
           exists a, c, b. split; [exact H | exact Hc].
Qed.

(** ** Lowercasing *)

(** The ASCII characters of a string are lowercased in place, whatever
    surrounds them. *)
Lemma lower_at_ascii_run (run : str) :
  Forall (fun c => is_ascii c = true) run ->
  forall a b : str,
    flat_map (lower_at (a ++ run ++ b)) (seq (length a) (length run))
    = map ascii_lower run.
Proof.
  induction run as [|c run IH]; intros Hrun a b; [reflexivity|].
  inversion Hrun as [|? ? Hascii Hrun']; subst.
  change (seq (length a) (length (c :: run)))
    with (length a :: seq (S (length a)) (length run)).
  change (flat_map ?f (?x :: ?l)) with (f x ++ flat_map f l).
  assert (Hc : lower_at (a ++ (c :: run) ++ b) (length a) = [ascii_lower c]).
  { unfold lower_at. change (a ++ (c :: run) ++ b) with (a ++ c :: run ++ b).
    rewrite nth_middle, Hascii. reflexivity. }
  rewrite Hc. change ([ascii_lower c] ++ ?l) with (ascii_lower c :: l).
  change (map ascii_lower (c :: run))
    with (ascii_lower c :: map ascii_lower run).
  f_equal.
  replace (a ++ (c :: run) ++ b) with ((a ++ [c]) ++ run ++ b)
    by (rewrite <- app_assoc; reflexivity).
  replace (S (length a)) with (length (a ++ [c]))
    by (rewrite length_app; simpl; lia).
  apply IH. exact Hrun'.
Qed.

Lemma str_lower_keeps_run (run a b : str) :
  Forall (fun c => is_ascii c = true) run ->
  exists a' b' : str,
    str_lower (a ++ run ++ b) = a' ++ map ascii_lower run ++ b'.
Proof.
  intros Hrun. unfold str_lower.
  rewrite !length_app, seq_app, flat_map_app, seq_app, flat_map_app.
  change (0 + length a) with (length a).
  rewrite (lower_at_ascii_run run Hrun a b). eauto.
Qed.

(** On an ASCII string the Unicode table is not consulted. *)
Lemma str_lower_ascii (s : str) :
  Forall (fun c => is_ascii c = true) s -> str_lower s = map ascii_lower s.
Proof.
  intros Hs. unfold str_lower.
  pose proof (lower_at_ascii_run s Hs [] []) as Hrun.
  rewrite app_nil_l, app_nil_r in Hrun. exact Hrun.
Qed.

(** ** The penalty as a sum of three contributions *)

Lemma sequential_body_step (password : str) (penalty : Z) (i : nat) :
  sequential_body password penalty i
  = (penalty + if sequential_triplet password i then 5 else 0)%Z.
Proof.
  unfold sequential_body, sequential_triplet, ascending_triplet,
    descending_triplet.
  generalize (ord (nth i password 0%N)) (ord (nth (i + 1) password 0%N))
    (ord (nth (i + 2) password 0%N)).
  intros c0 c1 c2.
  destruct (Z.eqb_spec (c1 - c0) 1), (Z.eqb_spec (c2 - c1) 1),
    (Z.eqb_spec (c0 - c1) 1), (Z.eqb_spec (c1 - c2) 1),
    (Z.eqb_spec c1 (c0 + 1)), (Z.eqb_spec c2 (c1 + 1)),
    (Z.eqb_spec c1 (c0 - 1)), (Z.eqb_spec c2 (c1 - 1));
    simpl; lia.
Qed.

Lemma fold_sequential (password : str) (l : list nat) (penalty : Z) :
  fold_left (sequential_body password) l penalty
  = (penalty
     + 5 * Z.of_nat (length (List.filter (sequential_triplet password) l)))%Z.
Proof.
  revert penalty. induction l as [|i l IH]; intros penalty; simpl.
  - lia.
  - rewrite IH, sequential_body_step.
    destruct (sequential_triplet password i); simpl length; lia.
Qed.

Lemma fold_keyboard (password : str) (l : list str) (penalty : Z) :
  fold_left (keyboard_body password) l penalty
  = (penalty
     + 10 * Z.of_nat
              (length (List.filter
                         (fun pattern =>
                            str_contains pattern (str_lower password)) l)))%Z.
Proof.
  revert penalty. induction l as [|pattern l IH]; intros penalty; simpl.
  - lia.
  - rewrite IH. unfold keyboard_body.
    destruct (str_contains pattern (str_lower password)); simpl length; lia.
Qed.

Lemma penalty_decomposition (password : str) :
  penalty_for_repeated_and_sequential_patterns password
  = (repeat_contribution password
     + 5 * Z.of_nat (spec_sequential_count password)
     + 10 * Z.of_nat (spec_keyboard_count password))%Z.
Proof.
  unfold penalty_for_repeated_and_sequential_patterns, repeat_contribution,
    spec_sequential_count, spec_keyboard_count, range.
  rewrite fold_keyboard, fold_sequential, Nat.sub_0_r.
  destruct (re_search_repeat password); lia.
Qed.

Lemma repeat_contribution_range (password : str) :
  repeat_contribution password = 0%Z \/ repeat_contribution password = 10%Z.
Proof.
  unfold repeat_contribution. destruct (re_search_repeat password); auto.
Qed.

Lemma penalty_nonneg (password : str) :
  (0 <= penalty_for_repeated_and_sequential_patterns password)%Z.
Proof.
  rewrite penalty_decomposition.
  destruct (repeat_contribution_range password) as [-> | ->]; lia.
Qed.

(** An ascending run: the code points [0, 1, ..., n - 1]. *)
Lemma nth_ascending_run (n i : nat) :
  i < n -> nth i (map N.of_nat (seq 0 n)) 0%N = N.of_nat i.
Proof.
  intros Hi. change 0%N with (N.of_nat 0). rewrite map_nth, seq_nth by lia.
  reflexivity.
Qed.

Lemma filter_all {A : Type} (f : A -> bool) (l : list A) :
  (forall x, In x l -> f x = true) -> List.filter f l = l.
Proof.
  induction l as [|x l IH]; intros H; simpl; [reflexivity|].
  rewrite (H x) by (left; reflexivity).
  f_equal. apply IH. intros y Hy. apply H. right. exact Hy.
Qed.

Lemma ascending_run_count (n : nat) :
  spec_sequential_count (map N.of_nat (seq 0 (n + 2))) = n.
Proof.
  unfold spec_sequential_count.
  rewrite length_map, length_seq.
  replace (n + 2 - 2) with n by lia.
  rewrite filter_all; [apply length_seq|].
  intros i Hi. apply in_seq in Hi.
  unfold sequential_triplet, ascending_triplet, ord.
  rewrite !nth_ascending_run by lia.
  apply orb_true_iff. left. apply andb_true_iff.
  split; apply Z.eqb_eq; lia.
Qed.

Lemma penalty_unbounded (bound : Z) :
  exists password : str,
    (bound < penalty_for_repeated_and_sequential_patterns password)%Z.
Proof.
  exists (map N.of_nat (seq 0 (Z.to_nat bound + 1 + 2))).
  rewrite penalty_decomposition, ascending_run_count.
  destruct (repeat_contribution_range
              (map N.of_nat (seq 0 (Z.to_nat bound + 1 + 2)))) as [-> | ->];
    lia.
Qed.

(** ** The dictionary scanner *)

Lemma in_range (a b x : nat) : In x (range a b) <-> a <= x < b.
Proof. unfold range. rewrite in_seq. lia. Qed.

(** A loop whose body never raises returns, and returns true exactly when
    the body does for some element. *)
Lemma for_return_true_total {A : Type} (body : A -> result bool) (l : list A) :
  (forall x, In x l -> exists b, body x = Return b) ->
  exists b, for_return_true body l = Return b
            /\ (b = true <-> exists x, In x l /\ body x = Return true).
Proof.
  induction l as [|x l IH]; intros Hbody; simpl.
  - exists false. split; [reflexivity|].
    split; [discriminate | intros [x [[] _]]].
  - destruct (Hbody x) as [hit Hhit]; [left; reflexivity|].
    rewrite Hhit. simpl. destruct hit.
    + exists true. split; [reflexivity|].
      split; [intros _; exists x; auto | reflexivity].
    + destruct IH as [b [Hb Hiff]].
      { intros y Hy. apply Hbody. right. exact Hy. }
      exists b. split; [exact Hb|]. rewrite Hiff. split.
      * intros [y [Hy Hty]]. exists y. auto.
      * intros [y [[<- | Hy] Hty]]; [congruence | eauto].
Qed.

Lemma slice_decompose (s : str) (i j : nat) :
  i <= j <= length s ->
  s = firstn i s ++ slice s i j ++ skipn j s /\ length (slice s i j) = j - i.
Proof.
  intros Hij. unfold slice. split.
  - replace (skipn j s) with (skipn (j - i) (skipn i s)).
    + rewrite (firstn_skipn (j - i) (skipn i s)), firstn_skipn. reflexivity.
    + rewrite skipn_skipn. f_equal. lia.
  - rewrite length_firstn, length_skipn. lia.
Qed.

Lemma slice_middle (a w b : str) :
  slice (a ++ w ++ b) (length a) (length a + length w) = w.
Proof.
  unfold slice. rewrite skipn_app, skipn_all, Nat.sub_diag.
  change (skipn 0 (w ++ b)) with (w ++ b). simpl.
  replace (length a + length w - length a) with (length w) by lia.
  rewrite firstn_app, firstn_all, Nat.sub_diag.
  change (firstn 0 b) with (@nil N). apply app_nil_r.
Qed.

(** The pairs of indices visited by the two loops are the substrings of
    length at least 4. *)
Lemma scanned_slices (d : gset str) (s : str) :
  (exists i, In i (range 0 (length s))
             /\ exists j, In j (range (i + 4) (length s + 1))
                          /\ slice s i j ∈ d)
  <-> exists a w b, s = a ++ w ++ b /\ 4 <= length w /\ w ∈ d.
Proof.
  split.
  - intros (i & Hi & j & Hj & Hd).
    apply in_range in Hi. apply in_range in Hj.
    destruct (slice_decompose s i j) as [Hs Hlen]; [lia|].
    exists (firstn i s), (slice s i j), (skipn j s).
    split; [exact Hs|]. split; [lia | exact Hd].
  - intros (a & w & b & -> & Hlen & Hd).
    exists (length a).
    split; [apply in_range; rewrite !length_app; lia|].
    exists (length a + length w).
    split; [apply in_range; rewrite !length_app; lia|].
    rewrite slice_middle. exact Hd.
Qed.

Lemma check_dictionary_words_set (password : str) (d : gset str) :
  exists b, check_dictionary_words password (Some d) = Return b
            /\ (b = true <-> has_dictionary_word d (str_lower password)).
Proof.
  unfold check_dictionary_words, has_dictionary_word. simpl.
  destruct (bool_decide_reflect (str_lower password ∈ d)) as [Hin | Hnin].
  - exists true. split; [reflexivity|]. split; auto.
  - set (inner := fun i : nat =>
                    for_return_true
                      (fun j => py_in (slice (str_lower password) i j) (Some d))
                      (range (i + 4) (length (str_lower password) + 1))).
    assert (Hinner : forall i,
               exists b, inner i = Return b
                         /\ (b = true
                             <-> exists j,
                                 In j (range (i + 4)
                                         (length (str_lower password) + 1))
                                 /\ slice (str_lower password) i j ∈ d)).
    { intros i. destruct (for_return_true_total
                            (fun j => py_in (slice (str_lower password) i j)
                                        (Some d))
                            (range (i + 4) (length (str_lower password) + 1)))
        as [b [Hb Hiff]].
      - intros j _. simpl. eauto.
      - exists b. split; [exact Hb|]. rewrite Hiff.
        split; intros [j [Hj Hd]]; exists j; (split; [exact Hj|]).
        + simpl in Hd. injection Hd as Hd.
          apply bool_decide_eq_true in Hd. exact Hd.
        + simpl. f_equal. apply bool_decide_eq_true. exact Hd. }
    destruct (for_return_true_total inner
                (range 0 (length (str_lower password)))) as [b [Hb Hiff]].
    { intros i _. destruct (Hinner i) as [bi [Hbi _]]. eauto. }
    exists b. split; [exact Hb|].
    rewrite Hiff, <- scanned_slices. split.
    + intros [i [Hi Hti]]. right. exists i. split; [exact Hi|].
      destruct (Hinner i) as [bi [Hbi Hiffi]].
      apply Hiffi. congruence.
    + intros [Hin | [i [Hi Hj]]]; [contradiction|].
      exists i. split; [exact Hi|].
      destruct (Hinner i) as [bi [Hbi Hiffi]].
      rewrite Hbi. f_equal. apply Hiffi. exact Hj.
Qed.

Lemma check_dictionary_words_empty (password : str) :
  check_dictionary_words password (Some ∅) = Return false.
Proof.
  destruct (check_dictionary_words_set password ∅) as [b [Hb Hiff]].
  rewrite Hb. f_equal. destruct b; [|reflexivity].
  destruct Hiff as [Hiff _].
  destruct (Hiff eq_refl) as [Hin | (a & w & b' & _ & _ & Hin)];
    exfalso; exact (not_elem_of_empty _ Hin).
Qed.

(** The guard of line 103 keeps the scanner away from [None]: the feedback
    is always computed. *)
Lemma guarded_scan (password : str) (dictionary : option (gset str)) :
  (if truthy dictionary
   then check_dictionary_words password dictionary
   else Return false)
  = Return (dictionary_triggers password dictionary).
Proof.
  destruct dictionary as [d|]; simpl; [|reflexivity].
  destruct (bool_decide_reflect (d = ∅)) as [-> | Hne]; simpl.
  - rewrite check_dictionary_words_empty. reflexivity.
  - destruct (check_dictionary_words_set password d) as [b [Hb _]].
    rewrite Hb. destruct b; reflexivity.
Qed.

(** ** Feedback and evaluation *)

Lemma get_password_feedback_returns
    (password : str) (dictionary : option (gset str)) :
  get_password_feedback password dictionary
  = Return (spec_feedback password dictionary,
            penalty_for_repeated_and_sequential_patterns password).
Proof.
  unfold get_password_feedback. rewrite guarded_scan.
  unfold bind, spec_feedback, spec_checks, re_search_class.
  destruct (bool_decide (str_lower password ∈ COMMON_PASSWORDS)),
    (length password <? 8)%nat,
    (dictionary_triggers password dictionary),
    (0 <? penalty_for_repeated_and_sequential_patterns password)%Z,
    (length password <? 12)%nat,
    (existsb upper_class password),
    (existsb decimal_class password),
    (existsb punctuation_class password); reflexivity.
Qed.

Lemma evaluate_password_strength_returns
    (password : str) (dictionary : option (gset str)) :
  evaluate_password_strength password dictionary
  = Return
      {| password_of := password;
         length_of := length password;
         base_entropy := calculate_base_entropy password;
         penalty_of := penalty_for_repeated_and_sequential_patterns password;
         effective_entropy :=
           Rmax (calculate_base_entropy password
                 - IZR (penalty_for_repeated_and_sequential_patterns password))
                0;
         strength :=
           strength_label
             (Rmax (calculate_base_entropy password
                    - IZR (penalty_for_repeated_and_sequential_patterns
                             password))
                   0);
         feedback := spec_feedback password dictionary |}.
Proof.
  unfold evaluate_password_strength.
  rewrite get_password_feedback_returns. reflexivity.
Qed.

(** ** The entropy pool *)

Lemma character_pool_spec (password : str) :
  character_pool password = spec_pool password.
Proof.
  unfold character_pool, spec_pool, class_contribution, re_search_class.
  destruct (existsb lower_class password), (existsb upper_class password),
    (existsb decimal_class password), (existsb punctuation_class password);
    reflexivity.
Qed.

Lemma spec_pool_nonneg (password : str) : (0 <= spec_pool password)%Z.
Proof.
  unfold spec_pool, class_contribution.
  destruct (existsb lower_class password), (existsb upper_class password),
    (existsb decimal_class password), (existsb punctuation_class password);
    lia.
Qed.

Lemma spec_pool_zero (password : str) :
  spec_pool password = 0%Z <-> existsb recognised password = false.
Proof.
  assert (Hsplit : existsb recognised password
                   = existsb lower_class password
                     || existsb upper_class password
                     || existsb decimal_class password
                     || existsb punctuation_class password).
  { induction password as [|c password IH]; [reflexivity|].
    simpl. rewrite IH. unfold recognised.
    destruct (lower_class c), (upper_class c), (decimal_class c),
      (punctuation_class c), (existsb lower_class password),
      (existsb upper_class password), (existsb decimal_class password),
      (existsb punctuation_class password); reflexivity. }
  rewrite Hsplit. unfold spec_pool, class_contribution.
  destruct (existsb lower_class password), (existsb upper_class password),
    (existsb decimal_class password), (existsb punctuation_class password);
    simpl; split; (lia || discriminate || reflexivity).
Qed.

Lemma log2_nonneg (n : Z) : (1 <= n)%Z -> (0 <= log2 (IZR n))%R.
Proof.
  intros Hn. unfold log2.
  assert (Hln2 : (0 < ln 2)%R) by (pose proof ln_lt_2; lra).
  assert (Hn' : (1 <= IZR n)%R) by (apply IZR_le in Hn; exact Hn).
  assert (Hln : (0 <= ln (IZR n))%R).
  { destruct (Req_dec (IZR n) 1) as [-> | Hne].
    - rewrite ln_1. lra.
    - rewrite <- ln_1. left. apply ln_increasing; lra. }
  apply Rmult_le_pos; [exact Hln|].
  left. apply Rinv_0_lt_compat. exact Hln2.
Qed.

Lemma calculate_base_entropy_nonneg (password : str) :
  (0 <= calculate_base_entropy password)%R.
Proof.
  unfold calculate_base_entropy. rewrite character_pool_spec.
  destruct (Z.eqb_spec (spec_pool password) 0) as [_ | Hne]; simpl; [lra|].
  apply Rmult_le_pos; [apply pos_INR|].
  apply log2_nonneg. pose proof (spec_pool_nonneg password). lia.
Qed.

(** ** The properties *)

(** C1. For every password and optional dictionary the evaluation returns a
    result whose effective entropy is [max(base_entropy - penalty, 0)],
    where the two operands are the base entropy and the pattern penalty of
    the password; hence it lies between [0] and the base entropy. *)
Theorem effective_entropy_floor
    (password : str) (dictionary : option (gset str)) :
  exists r : EvaluationResult,
    evaluate_password_strength password dictionary = Return r
    /\ base_entropy r = calculate_base_entropy password
    /\ penalty_of r = penalty_for_repeated_and_sequential_patterns password
    /\ effective_entropy r = Rmax (base_entropy r - IZR (penalty_of r)) 0
    /\ (0 <= effective_entropy r <= base_entropy r)%R.
Proof.
  eexists. split; [apply evaluate_password_strength_returns|]. simpl.
  repeat split.
  - apply Rmax_r.
  - pose proof (calculate_base_entropy_nonneg password) as Hbase.
    pose proof (IZR_le _ _ (penalty_nonneg password)) as Hpen.
    apply Rmax_lub; lra.
Qed.

(** C2. The strength label of a result is the label of its effective
    entropy, and that label follows the half-open thresholds 28, 36, 60 and
    128; the labelling is a function of the effective entropy alone and is
    monotone for the order Very Weak, Weak, Moderate, Strong, Very Strong. *)
Theorem strength_label_thresholds
    (password : str) (dictionary : option (gset str)) :
  (exists r : EvaluationResult,
      evaluate_password_strength password dictionary = Return r
      /\ strength r = strength_label (effective_entropy r))
  /\ (forall e : R,
         ((e < 28)%R -> strength_label e = "Very Weak"%string)
         /\ ((28 <= e < 36)%R -> strength_label e = "Weak"%string)
         /\ ((36 <= e < 60)%R -> strength_label e = "Moderate"%string)
         /\ ((60 <= e < 128)%R -> strength_label e = "Strong"%string)
         /\ ((128 <= e)%R -> strength_label e = "Very Strong"%string))
  /\ (forall e1 e2 : R,
         (e1 <= e2)%R ->
         strength_rank (strength_label e1) <= strength_rank (strength_label e2)).
Proof.
  split; [|split].
  - eexists. split; [apply evaluate_password_strength_returns|]. reflexivity.
  - intros e. unfold strength_label.
    repeat split; intros He;
      destruct (Rlt_dec e 28), (Rlt_dec e 36), (Rlt_dec e 60),
        (Rlt_dec e 128); try reflexivity; lra.
  - intros e1 e2 Hle. unfold strength_label.
    destruct (Rlt_dec e1 28), (Rlt_dec e1 36), (Rlt_dec e1 60),
      (Rlt_dec e1 128), (Rlt_dec e2 28), (Rlt_dec e2 36), (Rlt_dec e2 60),
      (Rlt_dec e2 128); try lra; vm_compute; lia.
Qed.

(** C3. The base entropy is [length * log2(pool)], where the pool is the sum
    of 26 for a character of [a-z], 26 for one of [A-Z], 10 for a digit and
    22 for a punctuation character, each counted when some character of
    the class is present; it is [0] when no character of the password is in
    any of the four classes, as for the empty password. *)
Theorem calculate_base_entropy_pool (password : str) :
  character_pool password = spec_pool password
  /\ ((exists c, In c password /\ recognised c = true) ->
      calculate_base_entropy password
      = (INR (length password) * log2 (IZR (spec_pool password)))%R)
  /\ ((forall c, In c password -> recognised c = false) ->
      calculate_base_entropy password = 0%R)
  /\ calculate_base_entropy [] = 0%R.
Proof.
  split; [apply character_pool_spec|].
  unfold calculate_base_entropy. rewrite character_pool_spec.
  split; [|split].
  - intros Hex. apply existsb_exists in Hex.
    destruct (Z.eqb_spec (spec_pool password) 0) as [Hz | _];
      [|reflexivity].
    apply spec_pool_zero in Hz.
    discriminate (eq_trans (eq_sym Hex) Hz).
  - intros Hall.
    assert (Hz : spec_pool password = 0%Z).
    { apply spec_pool_zero.
      destruct (existsb recognised password) eqn:Hex; [|reflexivity].
      apply existsb_exists in Hex. destruct Hex as [c [Hc Hrec]].
      rewrite (Hall c Hc) in Hrec. discriminate. }
    rewrite Hz. reflexivity.
  - reflexivity.
Qed.

(** C7 (amended). For a dictionary that is a set, the scanner returns, and
    returns true exactly when the lowercased password is a member or has a
    contiguous substring of length at least 4 that is a member; it returns
    false on the empty set. An absent dictionary never reaches the scanner:
    [get_password_feedback] guards the call and reports no dictionary
    match. *)
Theorem check_dictionary_words_spec (password : str) (d : gset str) :
  (exists b : bool,
      check_dictionary_words password (Some d) = Return b
      /\ (b = true <-> has_dictionary_word d (str_lower password)))
  /\ check_dictionary_words password (Some ∅) = Return false
  /\ (exists (feedback : list string) (penalty : Z),
         get_password_feedback password None = Return (feedback, penalty)
         /\ ~ In MSG_DICTIONARY feedback).
Proof.
  split; [apply check_dictionary_words_set|].
  split; [apply check_dictionary_words_empty|].
  exists (spec_feedback password None),
    (penalty_for_repeated_and_sequential_patterns password).
  split; [apply get_password_feedback_returns|].
  unfold spec_feedback, spec_checks, dictionary_triggers.
  destruct (bool_decide (str_lower password ∈ COMMON_PASSWORDS)),
    (length password <? 8)%nat,
    (0 <? penalty_for_repeated_and_sequential_patterns password)%Z,
    (length password <? 12)%nat,
    (existsb upper_class password),
    (existsb decimal_class password),
    (existsb punctuation_class password); simpl;
    intros H; repeat (destruct H as [H | H]; [discriminate H|]); exact H.
Qed.

(** C8. The feedback list is the list of the messages of the checks that
    trigger, taken in the fixed order too-common, too-short,
    dictionary-words, patterns (penalty above zero), longer, uppercase,
    digits, special characters; the penalty is returned beside it. *)
Theorem feedback_order (password : str) (dictionary : option (gset str)) :
  get_password_feedback password dictionary
  = Return (spec_feedback password dictionary,
            penalty_for_repeated_and_sequential_patterns password)
  /\ (forall msg : string,
         In msg (spec_feedback password dictionary)
         <-> In (true, msg) (spec_checks password dictionary)).
Proof.
  split; [apply get_password_feedback_returns|].
  intros msg. unfold spec_feedback. rewrite in_map_iff. split.
  - intros [[trigger msg'] [Hmsg Hin]]. simpl in Hmsg. subst msg'.
    apply filter_In in Hin. destruct Hin as [Hin Htrigger].
    simpl in Htrigger. subst trigger. exact Hin.
  - intros Hin. exists (true, msg). split; [reflexivity|].
    apply filter_In. split; [exact Hin | reflexivity].
Qed.

(** ** Which checks put which message *)

Lemma spec_feedback_triggered
    (password : str) (dictionary : option (gset str)) (msg : string) :
  In msg (spec_feedback password dictionary)
  <-> In (true, msg) (spec_checks password dictionary).
Proof.
  unfold spec_feedback. rewrite in_map_iff. split.
  - intros [[trigger msg'] [Hmsg Hin]]. simpl in Hmsg. subst msg'.
    apply filter_In in Hin. destruct Hin as [Hin Htrigger].
    simpl in Htrigger. subst trigger. exact Hin.
  - intros Hin. exists (true, msg). split; [reflexivity|].
    apply filter_In. split; [exact Hin | reflexivity].
Qed.

(** One case of [In (true, msg) (spec_checks ...)]: the pair of another
    message is excluded, the pair of [msg] gives its trigger. *)
Ltac check_case H :=
  first [ discriminate H
        | injection H as H; rewrite H; reflexivity
        | injection H as H; exact H ].

Lemma common_message (password : str) (dictionary : option (gset str)) :
  In MSG_COMMON (spec_feedback password dictionary)
  <-> str_lower password ∈ COMMON_PASSWORDS.
Proof.
  rewrite spec_feedback_triggered. unfold spec_checks. split.
  - intros [H|[H|[H|[H|[H|[H|[H|[H|[]]]]]]]]]; try discriminate H.
    injection H as H. apply bool_decide_eq_true in H. exact H.
  - intros Hin. left. f_equal. apply bool_decide_eq_true. exact Hin.
Qed.

Lemma dictionary_message (password : str) (dictionary : option (gset str)) :
  In MSG_DICTIONARY (spec_feedback password dictionary)
  <-> dictionary_triggers password dictionary = true.
Proof.
  rewrite spec_feedback_triggered. unfold spec_checks. split.
  - intros [H|[H|[H|[H|[H|[H|[H|[H|[]]]]]]]]]; check_case H.
  - intros Hin. right. right. left. rewrite Hin. reflexivity.
Qed.

Lemma patterns_message (password : str) (dictionary : option (gset str)) :
  In MSG_PATTERNS (spec_feedback password dictionary)
  <-> (0 < penalty_for_repeated_and_sequential_patterns password)%Z.
Proof.
  rewrite spec_feedback_triggered, <- Z.ltb_lt. unfold spec_checks. split.
  - intros [H|[H|[H|[H|[H|[H|[H|[H|[]]]]]]]]]; check_case H.
  - intros Hin. right. right. right. left. rewrite Hin. reflexivity.
Qed.

(** ** Stripping *)

Lemma lstrip_nil (s : str) :
  lstrip s = [] <-> forallb space_class s = true.
Proof.
  induction s as [|c s IH]; simpl; [tauto|].
  destruct (space_class c); simpl; [exact IH|].
  split; discriminate.
Qed.

Lemma lstrip_head (s : str) (c : char) (t : str) :
  lstrip s = c :: t -> space_class c = false.
Proof.
  induction s as [|x s IH]; simpl; [discriminate|].
  destruct (space_class x) eqn:Hx; [exact IH|].
  intros H. injection H as -> _. exact Hx.
Qed.

Lemma lstrip_suffix (s : str) : exists a, s = a ++ lstrip s.
Proof.
  induction s as [|c s [a Ha]]; simpl; [exists []; reflexivity|].
  destruct (space_class c).
  - exists (c :: a). simpl. f_equal. exact Ha.
  - exists []. reflexivity.
Qed.

Lemma forallb_rev {A : Type} (f : A -> bool) (l : list A) :
  forallb f (rev l) = forallb f l.
Proof.
  induction l as [|x l IH]; [reflexivity|].
  simpl. rewrite forallb_app, IH. simpl. rewrite andb_true_r.
  apply andb_comm.
Qed.

(** A line is blank for the loader exactly when it is all whitespace. *)
Lemma str_strip_nil (s : str) :
  str_strip s = [] <-> forallb space_class s = true.
Proof.
  unfold str_strip. split.
  - intros H. apply (f_equal (@rev N)) in H. rewrite rev_involutive in H.
    simpl in H. apply lstrip_nil in H. rewrite forallb_rev in H.
    destruct (lstrip_suffix s) as [a Ha].
    destruct (lstrip s) as [|c t] eqn:Hl; [apply lstrip_nil; exact Hl|].
    simpl in H. apply andb_true_iff in H. destruct H as [Hc _].
    rewrite (lstrip_head s c t Hl) in Hc. discriminate Hc.
  - intros H. apply lstrip_nil in H. rewrite H. reflexivity.
Qed.

(** The stripped string neither starts nor ends with whitespace. *)
Lemma str_strip_ends (s : str) (c : char) (t : str) :
  (str_strip s = c :: t \/ str_strip s = t ++ [c]) -> space_class c = false.
Proof.
  unfold str_strip. intros [H | H].
  - destruct (lstrip (rev (lstrip s))) as [|x u] eqn:Hl; [discriminate H|].
    assert (Hu : forall y, In y (x :: u) -> In y (lstrip s)).
    { intros y Hy. destruct (lstrip_suffix (rev (lstrip s))) as [a Ha].
      apply in_rev. rewrite Ha, Hl. apply in_or_app. right. exact Hy. }
    destruct (lstrip s) as [|y v] eqn:Hs.
    + exfalso. exact (Hu x (or_introl eq_refl)).
    + pose proof (lstrip_head s y v Hs) as Hy.
      destruct (lstrip_suffix (rev (y :: v))) as [a Ha].
      rewrite Hl in Ha. apply (f_equal (@rev N)) in Ha.
      rewrite rev_involutive, rev_app_distr in Ha.
      rewrite H in Ha. simpl in Ha. injection Ha as <- _. exact Hy.
  - apply (f_equal (@rev N)) in H.
    rewrite rev_involutive, rev_app_distr in H. simpl in H.
    apply (lstrip_head _ _ _ H).
Qed.

(** ** The loaded word list *)

Lemma load_common_passwords_members
    (fs : str -> file) (filepath : str) (lines : list str) (w : str) :
  fs filepath = Lines lines ->
  w ∈ fst (load_common_passwords fs filepath)
  <-> exists line, In line lines /\ str_strip line <> []
                   /\ w = str_lower (str_strip line).
Proof.
  intros Hfs. unfold load_common_passwords. rewrite Hfs. simpl.
  rewrite elem_of_list_to_set, list_elem_of_In, in_map_iff. split.
  - intros [line [Hw Hin]]. apply filter_In in Hin.
    destruct Hin as [Hin Htruthy]. exists line.
    split; [exact Hin|]. split; [|symmetry; exact Hw].
    destruct (str_strip line); [discriminate Htruthy | discriminate].
  - intros (line & Hin & Hne & ->). exists line. split; [reflexivity|].
    apply filter_In. split; [exact Hin|].
    destruct (str_strip line); [contradiction | reflexivity].
Qed.

End Checker.

(** ** The repeated-character rule *)

(** Away from the newline the rule is as flat as stated: one run or many,
    short or long, the contribution is 10. *)
Lemma repeat_contribution_flat (password : str) :
  (exists a c b, password = a ++ [c; c; c] ++ b /\ c <> 10%N) ->
  repeat_contribution password = 10%Z.
Proof.
  intros Hrun. apply re_search_repeat_spec in Hrun.
  unfold repeat_contribution. rewrite Hrun. reflexivity.
Qed.

Example repeat_aaabbb (unicode_lower : str -> nat -> list char) :
  repeat_contribution (str_of "aaabbb") = 10%Z
  /\ penalty_for_repeated_and_sequential_patterns unicode_lower
       (str_of "aaabbb")
     = 10%Z.
Proof. split; reflexivity. Qed.

(** C5. At the password made of three newlines, which is a run of three
    identical consecutive characters, the repeated-character rule adds
    nothing: the pattern of line 53 does not match and the whole penalty
    is 0 instead of 10. *)
Theorem repeat_rule_skips_newlines
    (unicode_lower : str -> nat -> list char) :
  has_triple_run [10; 10; 10]%N
  /\ re_search_repeat [10; 10; 10]%N = false
  /\ repeat_contribution [10; 10; 10]%N = 0%Z
  /\ penalty_for_repeated_and_sequential_patterns unicode_lower
       [10; 10; 10]%N
     = 0%Z.
Proof.
  split; [exists [], 10%N, []; reflexivity|].
  repeat split; reflexivity.
Qed.

(** ** The three contributions together *)

(** C6. The pattern penalty is the repeat contribution, plus 5 for every
    index [0 <= i <= length - 3] whose triplet ascends by 1 twice or
    descends by 1 twice (overlapping triplets each count: 20 for abcdef),
    plus 10 for every keyboard pattern that occurs in the lowercased
    password (20 when both qwerty and admin occur); it is never negative
    and exceeds every bound on some password. *)
Theorem penalty_is_sum_of_rules
    (unicode_lower : str -> nat -> list char) (password : str) :
  penalty_for_repeated_and_sequential_patterns unicode_lower password
  = (repeat_contribution password
     + 5 * Z.of_nat (spec_sequential_count password)
     + 10 * Z.of_nat (spec_keyboard_count unicode_lower password))%Z
  /\ (0 <= penalty_for_repeated_and_sequential_patterns unicode_lower
             password)%Z
  /\ (forall bound : Z,
         exists p : str,
           (bound
            < penalty_for_repeated_and_sequential_patterns unicode_lower p)%Z)
  /\ (5 * Z.of_nat (spec_sequential_count (str_of "abcdef")) = 20)%Z
  /\ (10 * Z.of_nat (spec_keyboard_count unicode_lower (str_of "QwertyAdmin"))
      = 20)%Z.
Proof.
  split; [apply penalty_decomposition|].
  split; [apply penalty_nonneg|].
  split; [apply penalty_unbounded|].
  split; reflexivity.
Qed.

(** ** The punctuation class *)

Lemma punctuation_class_members (c : char) :
  punctuation_class c = true <-> In c PUNCTUATION.
Proof.
  unfold punctuation_class. rewrite existsb_exists. split.
  - intros [x [Hx Heq]]. apply N.eqb_eq in Heq. subst x. exact Hx.
  - intros Hc. exists c. split; [exact Hc | apply N.eqb_refl].
Qed.

Lemma punctuation_distinct : NoDup PUNCTUATION /\ length PUNCTUATION = 20.
Proof.
  split; [|reflexivity].
  apply (bool_decide_unpack _). vm_compute. exact I.
Qed.

(** C9 (amended). The punctuation class has exactly 20 members, the listed
    characters, all distinct; a password that contains at least one of them
    has 22 added to its entropy pool. *)
Theorem punctuation_class_pool :
  PUNCTUATION
  = [33; 64; 35; 36; 37; 94; 38; 42; 40; 41; 44; 46; 63; 34; 58; 123; 125;
     124; 60; 62]%N
  /\ NoDup PUNCTUATION
  /\ length PUNCTUATION = 20
  /\ (forall c : char, punctuation_class c = true <-> In c PUNCTUATION)
  /\ (forall (unicode_decimal : char -> bool) (password : str),
         (exists c, In c password /\ In c PUNCTUATION) ->
         character_pool unicode_decimal password
         = (class_contribution lower_class 26 password
            + class_contribution upper_class 26 password
            + class_contribution (decimal_class unicode_decimal) 10 password
            + 22)%Z).
Proof.
  split; [reflexivity|].
  split; [apply punctuation_distinct|].
  split; [apply punctuation_distinct|].
  split; [apply punctuation_class_members|].
  intros unicode_decimal password [c [Hc Hpunct]].
  rewrite character_pool_spec. unfold spec_pool. f_equal.
  unfold class_contribution.
  replace (existsb punctuation_class password) with true; [reflexivity|].
  symmetry. apply existsb_exists. exists c.
  split; [exact Hc | apply punctuation_class_members; exact Hpunct].
Qed.

(** ** The pattern 12345 *)

Lemma filter_length_pos {A : Type} (f : A -> bool) (l : list A) (x : A) :
  In x l -> f x = true -> 1 <= length (List.filter f l).
Proof.
  intros Hin Hfx.
  assert (Hx : In x (List.filter f l)) by (apply filter_In; auto).
  destruct (List.filter f l); [destruct Hx | simpl; lia].
Qed.

Lemma sequential_triplet_shift (a s : str) (i : nat) :
  sequential_triplet (a ++ s) (length a + i) = sequential_triplet s i.
Proof.
  unfold sequential_triplet, ascending_triplet, descending_triplet.
  rewrite <- !Nat.add_assoc, !app_nth2_plus. reflexivity.
Qed.

Lemma sequential_count_12345 (a b : str) :
  3 <= spec_sequential_count (a ++ str_of "12345" ++ b).
Proof.
  assert (Hrun : forall k, k < 3 ->
                   sequential_triplet (str_of "12345" ++ b) k = true).
  { intros k Hk. destruct k as [|[|[|k]]]; [reflexivity..|lia]. }
  unfold spec_sequential_count.
  replace (length (a ++ str_of "12345" ++ b) - 2)
    with (length a + (3 + length b))
    by (rewrite !length_app; change (length (str_of "12345")) with 5; lia).
  remember (sequential_triplet (a ++ str_of "12345" ++ b)) as f eqn:Hf.
  rewrite seq_app, List.filter_app, length_app, (seq_app 3 (length b)),
    List.filter_app, length_app.
  assert (Hmid : List.filter f (seq (0 + length a) 3) = seq (0 + length a) 3).
  { apply filter_all. intros i Hi. apply in_seq in Hi. subst f.
    replace i with (length a + (i - length a)) by lia.
    rewrite sequential_triplet_shift. apply Hrun. lia. }
  rewrite Hmid, length_seq. lia.
Qed.

(** C10. Every password that contains 12345 has a pattern penalty of at
    least 25: at least 10 from the keyboard rule, whose pattern 12345
    survives lowercasing, and at least 15 from the three overlapping
    ascending triplets of the same five characters. *)
Theorem penalty_12345
    (unicode_lower : str -> nat -> list char) (password : str) :
  (exists a b : str, password = a ++ str_of "12345" ++ b) ->
  (15 <= 5 * Z.of_nat (spec_sequential_count password))%Z
  /\ (10 <= 10 * Z.of_nat (spec_keyboard_count unicode_lower password))%Z
  /\ (25 <= penalty_for_repeated_and_sequential_patterns unicode_lower
              password)%Z.
Proof.
  intros (a & b & ->).
  assert (Hseq : 3 <= spec_sequential_count (a ++ str_of "12345" ++ b))
    by apply sequential_count_12345.
  assert (Hkey : 1 <= spec_keyboard_count unicode_lower
                        (a ++ str_of "12345" ++ b)).
  { unfold spec_keyboard_count.
    apply (filter_length_pos _ _ (str_of "12345")).
    - unfold KEYBOARD_PATTERNS. simpl. auto.
    - apply str_contains_spec.
      apply (str_lower_keeps_run unicode_lower (str_of "12345")).
      repeat constructor. }
  rewrite penalty_decomposition.
  destruct (repeat_contribution_range (a ++ str_of "12345" ++ b))
    as [-> | ->]; lia.
Qed.

(** ** The module-level global *)

(** C4 (amended). The evaluator takes the password and the dictionary; the
    common-password set is not an argument but the module-level global,
    read for the too-common check. Evaluation is a function of the
    password, the dictionary and the contents of that global: two
    evaluations of the same password with the same dictionary give the
    same result whenever the global agrees, at both, on the membership of
    the lowercased password. *)
Theorem evaluation_reads_global_membership
    (unicode_lower : str -> nat -> list char) (unicode_decimal : char -> bool)
    (G1 G2 : gset str) (password : str) (dictionary : option (gset str)) :
  (str_lower unicode_lower password ∈ G1
   <-> str_lower unicode_lower password ∈ G2) ->
  evaluate_password_strength unicode_lower unicode_decimal G1
    password dictionary
  = evaluate_password_strength unicode_lower unicode_decimal G2
      password dictionary.
Proof.
  intros Hsame. rewrite !evaluate_password_strength_returns.
  unfold spec_feedback, spec_checks.
  rewrite (bool_decide_ext _ _ Hsame). reflexivity.
Qed.

(** ** Runs of the program *)

Lemma strength_label_witness :
  strength_label 30 = "Weak"%string
  /\ strength_rank (strength_label 30) <= strength_rank (strength_label 130).
Proof.
  destruct (strength_label_thresholds
              no_unicode_lower no_unicode_decimal ∅ [] None)
    as (_ & Htable & Hmono).
  split.
  - apply (Htable 30%R). lra.
  - apply Hmono. lra.
Defined.

Lemma base_entropy_ab_witness :
  calculate_base_entropy no_unicode_decimal (str_of "ab")
  = (INR 2 * log2 (IZR (spec_pool no_unicode_decimal (str_of "ab"))))%R
  /\ calculate_base_entropy no_unicode_decimal (str_of " -") = 0%R.
Proof.
  split.
  - destruct (calculate_base_entropy_pool no_unicode_decimal (str_of "ab"))
      as (_ & Hpresent & _).
    apply Hpresent.
    exists 97%N. split; [left; reflexivity | reflexivity].
  - destruct (calculate_base_entropy_pool no_unicode_decimal (str_of " -"))
      as (_ & _ & Habsent & _).
    apply Habsent.
    intros c [<- | [<- | []]]; reflexivity.
Defined.

Lemma same_global_membership_witness :
  evaluate_password_strength no_unicode_lower no_unicode_decimal
    ∅ (str_of "hunter2") None
  = evaluate_password_strength no_unicode_lower no_unicode_decimal
      {[ str_of "letmein" ]} (str_of "hunter2") None.
Proof.
  apply evaluation_reads_global_membership.
  split; intros Hin.
  - exfalso. exact (not_elem_of_empty _ Hin).
  - apply elem_of_singleton in Hin. discriminate Hin.
Defined.

Lemma punctuation_pool_witness :
  character_pool no_unicode_decimal (str_of "a!") = (26 + 0 + 0 + 22)%Z.
Proof.
  destruct punctuation_class_pool as (_ & _ & _ & _ & Hpool).
  apply (Hpool no_unicode_decimal (str_of "a!")).
  exists 33%N. split; [right; left; reflexivity | left; reflexivity].
Defined.

Lemma penalty_12345_witness :
  (25 <= penalty_for_repeated_and_sequential_patterns no_unicode_lower
           (str_of "x12345y"))%Z.
Proof.
  apply (penalty_12345 no_unicode_lower (str_of "x12345y")).
  exists (str_of "x"), (str_of "y"). reflexivity.
Defined.

(** The same password and dictionary evaluate differently under two
    contents of the global. *)
Lemma evaluation_depends_on_global :
  evaluate_password_strength no_unicode_lower no_unicode_decimal
    {[ str_of "password" ]} (str_of "password") None
  <> evaluate_password_strength no_unicode_lower no_unicode_decimal
       ∅ (str_of "password") None.
Proof.
  rewrite !evaluate_password_strength_returns. intros Heq.
  apply (f_equal (fun r => match r with
                           | Return x => feedback x
                           | Raise _ => []
                           end)) in Heq.
  cbv beta iota delta [feedback] in Heq.
  vm_compute in Heq. discriminate Heq.
Qed.

(** The scanner does not return false on an absent dictionary: it raises. *)
Lemma check_dictionary_words_absent_raises :
  check_dictionary_words no_unicode_lower (str_of "abcd") None = Raise TypeError
  /\ check_dictionary_words no_unicode_lower (str_of "abcd") None
     <> Return false.
Proof. split; [reflexivity | discriminate]. Qed.

(** No list of 22 distinct characters is the punctuation class. *)
Lemma punctuation_class_not_22 :
  ~ exists l : list char,
      NoDup l /\ length l = 22
      /\ forall c : char, punctuation_class c = true <-> In c l.
Proof.
  intros (l & Hnodup & Hlen & Hmem).
  assert (Hperm : Permutation l PUNCTUATION).
  { apply NoDup_Permutation;
      [exact Hnodup | apply punctuation_distinct|].
    intros c. rewrite !list_elem_of_In, <- Hmem.
    apply punctuation_class_members. }
  apply Permutation_length in Hperm. rewrite Hlen in Hperm.
  discriminate Hperm.
Qed.

(** ** The word list behind the global *)

(** When the word list is missing the loader reports it on one printed
    line and returns the empty set; with that set as the global every
    evaluation still returns and never says that the password is too
    common. *)
Theorem missing_word_list_degrades
    (unicode_lower : str -> nat -> list char)
    (unicode_decimal unicode_space : char -> bool)
    (fs : str -> file) (filepath password : str)
    (dictionary : option (gset str)) :
  fs filepath = Missing ->
  load_common_passwords unicode_lower unicode_space fs filepath
  = (∅, [str_of "Error: Could not find the file: " ++ filepath])
  /\ exists r : EvaluationResult,
       evaluate_password_strength unicode_lower unicode_decimal
         (fst (load_common_passwords unicode_lower unicode_space fs filepath))
         password dictionary
       = Return r
       /\ ~ In MSG_COMMON (feedback r).
Proof.
  intros Hfs. unfold load_common_passwords. rewrite Hfs.
  split; [reflexivity|].
  eexists. split; [apply evaluate_password_strength_returns|]. simpl.
  rewrite common_message. apply not_elem_of_empty.
Qed.

(** With the global loaded from a word list, a password is reported as too
    common exactly when some line of the list that is not blank, once
    stripped and lowercased, is the lowercased password. *)
Theorem too_common_iff_listed
    (unicode_lower : str -> nat -> list char)
    (unicode_decimal unicode_space : char -> bool)
    (fs : str -> file) (filepath : str) (lines : list str)
    (password : str) (dictionary : option (gset str)) :
  fs filepath = Lines lines ->
  exists r : EvaluationResult,
    evaluate_password_strength unicode_lower unicode_decimal
      (fst (load_common_passwords unicode_lower unicode_space fs filepath))
      password dictionary
    = Return r
    /\ (In MSG_COMMON (feedback r)
        <-> exists line : str,
              In line lines
              /\ str_strip unicode_space line <> []
              /\ str_lower unicode_lower (str_strip unicode_space line)
                 = str_lower unicode_lower password).
Proof.
  intros Hfs.
  eexists. split; [apply evaluate_password_strength_returns|]. simpl.
  rewrite common_message.
  rewrite (load_common_passwords_members _ _ _ _ lines _ Hfs).
  split; intros (line & Hin & Hne & Heq); exists line; auto.
Qed.

(** Loading the concatenation of two word lists gives the union of what
    each gives, and prints nothing. *)
Theorem load_common_passwords_concat
    (unicode_lower : str -> nat -> list char) (unicode_space : char -> bool)
    (filepath : str) (lines1 lines2 : list str) :
  load_common_passwords unicode_lower unicode_space
    (fun _ => Lines (lines1 ++ lines2)) filepath
  = (fst (load_common_passwords unicode_lower unicode_space
            (fun _ => Lines lines1) filepath)
     ∪ fst (load_common_passwords unicode_lower unicode_space
              (fun _ => Lines lines2) filepath),
     []).
Proof.
  unfold load_common_passwords. simpl. f_equal.
  rewrite List.filter_app, map_app. apply list_to_set_app_L.
Qed.

(** A line made of whitespace only, wherever it stands in the word list,
    adds nothing to the loaded set. *)
Theorem load_common_passwords_skips_blank
    (unicode_lower : str -> nat -> list char) (unicode_space : char -> bool)
    (filepath : str) (before after : list str) (line : str) :
  forallb (space_class unicode_space) line = true ->
  load_common_passwords unicode_lower unicode_space
    (fun _ => Lines (before ++ line :: after)) filepath
  = load_common_passwords unicode_lower unicode_space
      (fun _ => Lines (before ++ after)) filepath.
Proof.
  intros Hblank. apply str_strip_nil in Hblank.
  unfold load_common_passwords. simpl.
  rewrite !List.filter_app. simpl. rewrite Hblank. reflexivity.
Qed.

Lemma ascii_lower_space (c : char) :
  ascii_space (ascii_lower c) = ascii_space c.
Proof.
  unfold ascii_lower. destruct (upper_class c) eqn:Hupper; [|reflexivity].
  unfold upper_class in Hupper. apply andb_true_iff in Hupper.
  destruct Hupper as [Hlo Hhi]. apply N.leb_le in Hlo, Hhi.
  unfold ascii_space.
  repeat match goal with
         | |- context [(?a <=? ?b)%N] => destruct (N.leb_spec a b)
         end; simpl; try reflexivity; lia.
Qed.

Lemma str_strip_incl
    (unicode_space : char -> bool) (s : list N) (c : N) :
  In c (str_strip unicode_space s) -> In c s.
Proof.
  unfold str_strip. intros Hin. apply (proj2 (in_rev _ _)) in Hin.
  destruct (lstrip_suffix unicode_space (rev (lstrip unicode_space s)))
    as [a Ha].
  assert (Hin' : In c (lstrip unicode_space s)).
  { apply (proj2 (in_rev _ _)). rewrite Ha.
    apply in_or_app. right. exact Hin. }
  destruct (lstrip_suffix unicode_space s) as [b Hb].
  rewrite Hb. apply in_or_app. right. exact Hin'.
Qed.

(** With an ASCII word list, an ASCII password that starts or ends with a
    whitespace character is never reported as too common, whatever the
    list contains: the loader strips its lines, the check does not strip
    the password. *)
Theorem padded_password_never_common
    (unicode_lower : str -> nat -> list char)
    (unicode_decimal unicode_space : char -> bool)
    (fs : str -> file) (filepath : str) (lines : list str)
    (password : str) (dictionary : option (gset str)) :
  fs filepath = Lines lines ->
  Forall (Forall (fun c => is_ascii c = true)) lines ->
  Forall (fun c => is_ascii c = true) password ->
  (exists (c : char) (rest : str),
      (password = c :: rest \/ password = rest ++ [c])
      /\ ascii_space c = true) ->
  exists r : EvaluationResult,
    evaluate_password_strength unicode_lower unicode_decimal
      (fst (load_common_passwords unicode_lower unicode_space fs filepath))
      password dictionary
    = Return r
    /\ ~ In MSG_COMMON (feedback r).
Proof.
  intros Hfs Hlines Hpassword (c & rest & Hpad & Hspace).
  eexists. split; [apply evaluate_password_strength_returns|]. simpl.
  rewrite common_message.
  rewrite (load_common_passwords_members _ _ _ _ lines _ Hfs).
  intros (line & Hin & Hne & Heq).
  assert (Hline : Forall (fun c => is_ascii c = true)
                    (str_strip unicode_space line)).
  { apply List.Forall_forall. intros x Hx. apply str_strip_incl in Hx.
    rewrite List.Forall_forall in Hlines.
    specialize (Hlines line Hin). rewrite List.Forall_forall in Hlines.
    apply Hlines. exact Hx. }
  rewrite (str_lower_ascii _ _ Hpassword), (str_lower_ascii _ _ Hline) in Heq.
  assert (Hends : exists c' t,
             (str_strip unicode_space line = c' :: t
              \/ str_strip unicode_space line = t ++ [c'])
             /\ ascii_lower c' = ascii_lower c).
  { destruct Hpad as [-> | ->].
    - destruct (str_strip unicode_space line) as [|c' t]; [contradiction|].
      simpl in Heq. injection Heq as Hc _. exists c', t. auto.
    - destruct (exists_last Hne) as (t & c' & Ht). rewrite Ht in Heq.
      rewrite !map_app in Heq. simpl in Heq.
      apply app_inj_tail in Heq. destruct Heq as [_ Hc].
      exists c', t. auto. }
  destruct Hends as (c' & t & Hshape & Hc).
  pose proof (str_strip_ends unicode_space line c' t Hshape) as Hnot.
  assert (Hascii : is_ascii c' = true).
  { rewrite List.Forall_forall in Hline. apply Hline.
    destruct Hshape as [-> | ->];
      [left; reflexivity | apply in_or_app; right; left; reflexivity]. }
  unfold space_class in Hnot. rewrite Hascii in Hnot.
  rewrite <- ascii_lower_space, Hc, ascii_lower_space, Hspace in Hnot.
  discriminate Hnot.
Qed.

Section Consequences.

#[local] Set Default Proof Using "Type".

Variable unicode_lower : str -> nat -> list char.
Variable unicode_decimal : char -> bool.
Variable COMMON_PASSWORDS : gset str.

(** ** More on the penalty *)

(** The penalty is a multiple of 5 and grows at most linearly with the
    length: at most 10 for the repeat rule, 5 for each of the
    [length - 2] triplets and 10 for each of the six patterns. *)
Theorem penalty_bounded_by_length (password : str) :
  (5 | penalty_for_repeated_and_sequential_patterns unicode_lower password)%Z
  /\ (penalty_for_repeated_and_sequential_patterns unicode_lower password
      <= 70 + 5 * Z.of_nat (length password - 2))%Z.
Proof.
  rewrite penalty_decomposition.
  assert (Hseq : spec_sequential_count password <= length password - 2).
  { unfold spec_sequential_count.
    etransitivity; [apply filter_length_le|]. rewrite length_seq. lia. }
  assert (Hkey : spec_keyboard_count unicode_lower password <= 6).
  { unfold spec_keyboard_count.
    etransitivity; [apply filter_length_le|]. reflexivity. }
  destruct (repeat_contribution_range password) as [-> | ->]; split;
    try lia.
  - exists (Z.of_nat (spec_sequential_count password)
            + 2 * Z.of_nat (spec_keyboard_count unicode_lower password))%Z. lia.
  - exists (2 + Z.of_nat (spec_sequential_count password)
            + 2 * Z.of_nat (spec_keyboard_count unicode_lower password))%Z. lia.
Qed.

(** The repeat rule never fires without a run of three identical
    characters, and on a password without a newline it fires on every such
    run. *)
Theorem repeat_rule_exact (password : str) :
  (repeat_contribution password = 10%Z -> has_triple_run password)
  /\ ((forall c, In c password -> c <> 10%N) ->
      has_triple_run password -> repeat_contribution password = 10%Z).
Proof.
  unfold repeat_contribution, has_triple_run. split.
  - destruct (re_search_repeat password) eqn:Hre; [|discriminate].
    intros _. apply re_search_repeat_spec in Hre.
    destruct Hre as (a & c & b & Heq & _). eauto.
  - intros Hnl (a & c & b & Heq).
    assert (Hre : re_search_repeat password = true).
    { apply re_search_repeat_spec. exists a, c, b. split; [exact Heq|].
      apply Hnl. rewrite Heq. apply in_or_app. right. left. reflexivity. }
    rewrite Hre. reflexivity.
Qed.

(** A keyboard pattern written in any mix of ASCII cases, anywhere in the
    password, costs at least 10 and brings the patterns message. *)
Theorem keyboard_pattern_any_case
    (w a b : str) (dictionary : option (gset str)) :
  Forall (fun c => is_ascii c = true) w ->
  In (map ascii_lower w) KEYBOARD_PATTERNS ->
  exists (feedback : list string) (penalty : Z),
    get_password_feedback unicode_lower unicode_decimal COMMON_PASSWORDS
      (a ++ w ++ b) dictionary
    = Return (feedback, penalty)
    /\ (10 <= penalty)%Z
    /\ In MSG_PATTERNS feedback.
Proof.
  intros Hascii Hpattern.
  assert (Hpenalty :
            (10 <= penalty_for_repeated_and_sequential_patterns unicode_lower
                     (a ++ w ++ b))%Z).
  { rewrite penalty_decomposition.
    assert (Hkey : 1 <= spec_keyboard_count unicode_lower (a ++ w ++ b)).
    { unfold spec_keyboard_count.
      apply (filter_length_pos _ _ (map ascii_lower w)); [exact Hpattern|].
      apply str_contains_spec. apply str_lower_keeps_run. exact Hascii. }
    destruct (repeat_contribution_range (a ++ w ++ b)) as [-> | ->]; lia. }
  eexists _, _. split; [apply get_password_feedback_returns|].
  split; [exact Hpenalty|]. apply patterns_message. lia.
Qed.

Lemma sequential_triplet_prefix (run b : str) (k : nat) :
  k + 2 < length run ->
  sequential_triplet (run ++ b) k = sequential_triplet run k.
Proof.
  intros Hk. unfold sequential_triplet, ascending_triplet, descending_triplet.
  rewrite !(app_nth1 run b) by lia. reflexivity.
Qed.

(** A stretch whose triplets are all sequential counts in full wherever it
    stands in the password. *)
Lemma sequential_count_stretch (a run b : str) :
  (forall k, k + 2 < length run -> sequential_triplet run k = true) ->
  length run - 2 <= spec_sequential_count (a ++ run ++ b).
Proof.
  intros Hrun. unfold spec_sequential_count.
  destruct (Nat.le_gt_cases (length run) 2) as [Hshort | Hlong]; [lia|].
  replace (length (a ++ run ++ b) - 2)
    with (length a + ((length run - 2) + length b))
    by (rewrite !length_app; lia).
  remember (sequential_triplet (a ++ run ++ b)) as f eqn:Hf.
  rewrite seq_app, List.filter_app, length_app,
    (seq_app (length run - 2) (length b)), List.filter_app, length_app.
  assert (Hmid : List.filter f (seq (0 + length a) (length run - 2))
                 = seq (0 + length a) (length run - 2)).
  { apply filter_all. intros i Hi. apply in_seq in Hi. subst f.
    replace i with (length a + (i - length a)) by lia.
    rewrite sequential_triplet_shift, sequential_triplet_prefix by lia.
    apply Hrun. lia. }
  rewrite Hmid, length_seq. lia.
Qed.

Lemma nth_ascending (c : char) (n k : nat) :
  k < n -> nth k (ascending_run c n) 0%N = (c + N.of_nat k)%N.
Proof.
  intros Hk. unfold ascending_run.
  rewrite (nth_indep _ 0%N (c + N.of_nat 0)%N)
    by (rewrite length_map, length_seq; lia).
  change (c + N.of_nat 0)%N with ((fun k => (c + N.of_nat k)%N) 0).
  rewrite map_nth, seq_nth by lia. reflexivity.
Qed.

Lemma nth_descending (c : char) (n k : nat) :
  k < n ->
  nth k (rev (ascending_run c n)) 0%N = (c + N.of_nat (n - S k))%N.
Proof.
  intros Hk.
  assert (Hlen : length (ascending_run c n) = n)
    by (unfold ascending_run; rewrite length_map, length_seq; reflexivity).
  rewrite rev_nth, Hlen by lia. apply nth_ascending. lia.
Qed.

(** A run of [n] consecutive code points, ascending or descending,
    anywhere in the password costs at least [5 * (n - 2)]. *)
Theorem consecutive_run_penalty (c : char) (n : nat) (a b : str) :
  (5 * Z.of_nat (n - 2)
   <= penalty_for_repeated_and_sequential_patterns unicode_lower
        (a ++ ascending_run c n ++ b))%Z
  /\ (5 * Z.of_nat (n - 2)
      <= penalty_for_repeated_and_sequential_patterns unicode_lower
           (a ++ rev (ascending_run c n) ++ b))%Z.
Proof.
  assert (Hlen : length (ascending_run c n) = n)
    by (unfold ascending_run; rewrite length_map, length_seq; reflexivity).
  assert (Hup : n - 2 <= spec_sequential_count (a ++ ascending_run c n ++ b)).
  { rewrite <- Hlen at 1. apply sequential_count_stretch.
    rewrite Hlen. intros k Hk.
    unfold sequential_triplet, ascending_triplet, ord.
    rewrite !nth_ascending by lia.
    apply orb_true_iff. left. apply andb_true_iff.
    split; apply Z.eqb_eq; lia. }
  assert (Hdown : n - 2
                  <= spec_sequential_count
                       (a ++ rev (ascending_run c n) ++ b)).
  { rewrite <- Hlen at 1. rewrite <- (length_rev (ascending_run c n)).
    apply sequential_count_stretch.
    rewrite length_rev, Hlen. intros k Hk.
    unfold sequential_triplet, descending_triplet, ord.
    rewrite !nth_descending by lia.
    apply orb_true_iff. right. apply andb_true_iff.
    split; apply Z.eqb_eq; lia. }
  rewrite !penalty_decomposition.
  destruct (repeat_contribution_range (a ++ ascending_run c n ++ b))
    as [-> | ->],
    (repeat_contribution_range (a ++ rev (ascending_run c n) ++ b))
    as [-> | ->]; lia.
Qed.

(** ** More on the entropy and the rating *)

Lemma log2_monotone (a b : Z) :
  (1 <= a <= b)%Z -> (log2 (IZR a) <= log2 (IZR b))%R.
Proof.
  intros [Ha Hab]. unfold log2.
  assert (Hln2 : (0 < ln 2)%R) by (pose proof ln_lt_2; lra).
  apply Rmult_le_compat_r; [left; apply Rinv_0_lt_compat; exact Hln2|].
  destruct (Z.eq_dec a b) as [-> | Hne]; [lra|].
  left. apply ln_increasing; [apply IZR_lt; lia | apply IZR_lt; lia].
Qed.

(** [log2 84 < 6.4], because [84 ^ 5 < 2 ^ 32]. *)
Lemma log2_84 : (log2 84 < 32 / 5)%R.
Proof.
  unfold log2.
  assert (Hln2 : (0 < ln 2)%R) by (pose proof ln_lt_2; lra).
  assert (Hpow : (ln (84 ^ 5) < ln (2 ^ 32))%R).
  { apply ln_increasing.
    - apply pow_lt. lra.
    - rewrite !pow_IZR. apply IZR_lt. reflexivity. }
  rewrite !ln_pow in Hpow by lra.
  rewrite !INR_IZR_INZ in Hpow.
  change (Z.of_nat 5) with 5%Z in Hpow.
  change (Z.of_nat 32) with 32%Z in Hpow.
  apply (Rmult_lt_reg_r (ln 2)); [exact Hln2|].
  unfold Rdiv at 1. rewrite Rmult_assoc, Rinv_l by lra. lra.
Qed.

Lemma class_contribution_app
    (cls : char -> bool) (size : Z) (p q : str) :
  (0 <= size)%Z ->
  (class_contribution cls size p <= class_contribution cls size (p ++ q))%Z.
Proof.
  intros Hsize. unfold class_contribution, str, char in *.
  rewrite existsb_app.
  destruct (existsb cls p), (existsb cls q); simpl; lia.
Qed.

Lemma class_contribution_max (cls : char -> bool) (size : Z) (p : str) :
  (0 <= size)%Z -> (class_contribution cls size p <= size)%Z.
Proof.
  intros Hsize. unfold class_contribution. destruct (existsb cls p); lia.
Qed.

Lemma spec_pool_app (p q : str) :
  (spec_pool unicode_decimal p <= spec_pool unicode_decimal (p ++ q))%Z.
Proof.
  unfold spec_pool.
  pose proof (class_contribution_app lower_class 26 p q).
  pose proof (class_contribution_app upper_class 26 p q).
  pose proof (class_contribution_app (decimal_class unicode_decimal) 10 p q).
  pose proof (class_contribution_app punctuation_class 22 p q).
  lia.
Qed.

Lemma spec_pool_max (p : str) : (spec_pool unicode_decimal p <= 84)%Z.
Proof.
  unfold spec_pool.
  pose proof (class_contribution_max lower_class 26 p).
  pose proof (class_contribution_max upper_class 26 p).
  pose proof (class_contribution_max (decimal_class unicode_decimal) 10 p).
  pose proof (class_contribution_max punctuation_class 22 p).
  lia.
Qed.

(** Making a password longer, by any characters, never lowers its base
    entropy. *)
Theorem base_entropy_grows (password more : str) :
  (calculate_base_entropy unicode_decimal password
   <= calculate_base_entropy unicode_decimal (password ++ more))%R.
Proof.
  pose proof (calculate_base_entropy_nonneg unicode_decimal (password ++ more))
    as Hnonneg.
  unfold calculate_base_entropy in *. rewrite !character_pool_spec in *.
  pose proof (spec_pool_app password more) as Happ.
  pose proof (spec_pool_nonneg unicode_decimal password) as Hpool.
  destruct (Z.eqb_spec (spec_pool unicode_decimal password) 0)
    as [_ | Hne]; [exact Hnonneg|].
  destruct (Z.eqb_spec (spec_pool unicode_decimal (password ++ more)) 0)
    as [Hz | _]; [lia|].
  simpl. apply Rmult_le_compat.
  - apply pos_INR.
  - apply log2_nonneg. lia.
  - apply le_INR. rewrite length_app. lia.
  - apply log2_monotone. lia.
Qed.

Lemma base_entropy_bound (password : str) :
  (calculate_base_entropy unicode_decimal password
   <= INR (length password) * log2 84)%R.
Proof.
  unfold calculate_base_entropy. rewrite character_pool_spec.
  pose proof (spec_pool_nonneg unicode_decimal password) as Hpool.
  pose proof (spec_pool_max password) as Hmax.
  destruct (Z.eqb_spec (spec_pool unicode_decimal password) 0)
    as [_ | Hne]; simpl.
  - apply Rmult_le_pos; [apply pos_INR | apply (log2_nonneg 84); lia].
  - apply Rmult_le_compat_l; [apply pos_INR|].
    apply (log2_monotone _ 84). lia.
Qed.

(** What a password of a given length can reach: the effective entropy is
    at most [length * log2 84]. *)
Theorem effective_entropy_bounded_by_length
    (password : str) (dictionary : option (gset str)) :
  exists r : EvaluationResult,
    evaluate_password_strength unicode_lower unicode_decimal COMMON_PASSWORDS
      password dictionary
    = Return r
    /\ (effective_entropy r <= INR (length password) * log2 84)%R
    /\ (effective_entropy r < 32 / 5 * INR (length password)
        \/ password = [])%R.
Proof.
  eexists. split; [apply evaluate_password_strength_returns|]. simpl.
  pose proof (base_entropy_bound password) as Hbase.
  pose proof (IZR_le _ _ (penalty_nonneg unicode_lower password)) as Hpen.
  pose proof (pos_INR (length password)) as Hlen.
  pose proof (log2_nonneg 84 ltac:(lia)) as Hlog.
  assert (Heff :
            (Rmax (calculate_base_entropy unicode_decimal password
                   - IZR (penalty_for_repeated_and_sequential_patterns
                            unicode_lower password)) 0
             <= INR (length password) * log2 84)%R).
  { apply Rmax_lub; [lra | apply Rmult_le_pos; assumption]. }
  split; [exact Heff|].
  destruct password as [|c password]; [right; reflexivity | left].
  assert (Hpos : (0 < INR (length (c :: password)))%R)
    by (apply lt_0_INR; simpl; lia).
  pose proof log2_84 as H84.
  eapply Rle_lt_trans; [exact Heff|].
  rewrite (Rmult_comm (32 / 5)). apply Rmult_lt_compat_l; assumption.
Qed.

Lemma strength_rank_monotone (e1 e2 : R) :
  (e1 <= e2)%R ->
  strength_rank (strength_label e1) <= strength_rank (strength_label e2).
Proof.
  intros Hle. unfold strength_label.
  destruct (Rlt_dec e1 28), (Rlt_dec e1 36), (Rlt_dec e1 60),
    (Rlt_dec e1 128), (Rlt_dec e2 28), (Rlt_dec e2 36), (Rlt_dec e2 60),
    (Rlt_dec e2 128); try lra; vm_compute; lia.
Qed.

(** The rating a length allows: up to 4 characters a password is always
    Very Weak, up to 9 it is never Strong or Very Strong, up to 20 it is
    never Very Strong, whatever its characters and whatever the sets. *)
Theorem short_password_rating
    (password : str) (dictionary : option (gset str)) :
  exists r : EvaluationResult,
    evaluate_password_strength unicode_lower unicode_decimal COMMON_PASSWORDS
      password dictionary
    = Return r
    /\ (length password <= 4 -> strength r = "Very Weak"%string)
    /\ (length password <= 9 ->
        strength r <> "Strong"%string /\ strength r <> "Very Strong"%string)
    /\ (length password <= 20 -> strength r <> "Very Strong"%string).
Proof.
  eexists. split; [apply evaluate_password_strength_returns|]. simpl.
  pose proof (base_entropy_bound password) as Hbase.
  pose proof (IZR_le _ _ (penalty_nonneg unicode_lower password)) as Hpen.
  pose proof (pos_INR (length password)) as Hlen.
  pose proof (log2_nonneg 84 ltac:(lia)) as Hlog.
  pose proof log2_84 as H84.
  set (e := Rmax (calculate_base_entropy unicode_decimal password
                  - IZR (penalty_for_repeated_and_sequential_patterns
                           unicode_lower password)) 0).
  assert (Heff : (e <= INR (length password) * log2 84)%R).
  { apply Rmax_lub; [lra | apply Rmult_le_pos; assumption]. }
  assert (Hbound : forall n : nat,
             length password <= n -> (e < 32 / 5 * INR n \/ e <= 0)%R).
  { intros n Hn. apply le_INR in Hn.
    destruct (Req_dec (INR n) 0) as [Hz | Hnz].
    - right. rewrite Hz in Hn.
      replace (INR (length password)) with 0%R in Heff by lra. lra.
    - left. eapply Rle_lt_trans; [exact Heff|].
      apply Rle_lt_trans with (INR n * log2 84)%R.
      + apply Rmult_le_compat_r; assumption.
      + rewrite (Rmult_comm (32 / 5)). apply Rmult_lt_compat_l; [|exact H84].
        pose proof (pos_INR n). lra. }
  unfold strength_label.
  split; [|split]; intros Hshort; apply Hbound in Hshort;
    rewrite INR_IZR_INZ in Hshort.
  - change (Z.of_nat 4) with 4%Z in Hshort.
    destruct (Rlt_dec e 28); [reflexivity | lra].
  - change (Z.of_nat 9) with 9%Z in Hshort.
    destruct (Rlt_dec e 28), (Rlt_dec e 36), (Rlt_dec e 60);
      try (split; discriminate); lra.
  - change (Z.of_nat 20) with 20%Z in Hshort.
    destruct (Rlt_dec e 28), (Rlt_dec e 36), (Rlt_dec e 60),
      (Rlt_dec e 128); try discriminate; lra.
Qed.

(** The penalty can only lower the rating: the label of a result is never
    above the label that its base entropy alone would get. *)
Theorem penalty_only_lowers_rating
    (password : str) (dictionary : option (gset str)) :
  exists r : EvaluationResult,
    evaluate_password_strength unicode_lower unicode_decimal COMMON_PASSWORDS
      password dictionary
    = Return r
    /\ strength_rank (strength r)
       <= strength_rank (strength_label (base_entropy r)).
Proof.
  eexists. split; [apply evaluate_password_strength_returns|]. simpl.
  apply strength_rank_monotone.
  pose proof (calculate_base_entropy_nonneg unicode_decimal password).
  pose proof (IZR_le _ _ (penalty_nonneg unicode_lower password)).
  apply Rmax_lub; lra.
Qed.

(** ** More on the feedback *)

Lemma filtered_sublist {A : Type} (l : list (bool * A)) :
  sublist (map snd (List.filter fst l)) (map snd l).
Proof.
  induction l as [|[trigger x] l IH]; simpl; [constructor|].
  destruct trigger; simpl;
    [apply sublist_skip | apply sublist_cons]; exact IH.
Qed.

Lemma messages_distinct : NoDup ALL_MESSAGES.
Proof.
  unfold ALL_MESSAGES.
  repeat (apply NoDup_cons_2;
          [rewrite list_elem_of_In; simpl;
           intros H; repeat (destruct H as [H | H]; [discriminate H|]);
           exact H|]).
  apply NoDup_nil_2.
Qed.

(** The feedback holds no message twice and keeps the order of the eight
    messages: it is the list of the eight with some left out. *)
Theorem feedback_within_messages
    (password : str) (dictionary : option (gset str)) :
  exists (feedback : list string) (penalty : Z),
    get_password_feedback unicode_lower unicode_decimal COMMON_PASSWORDS
      password dictionary
    = Return (feedback, penalty)
    /\ sublist feedback ALL_MESSAGES
    /\ NoDup feedback
    /\ length feedback <= 8.
Proof.
  eexists _, _. split; [apply get_password_feedback_returns|].
  assert (Hsub : sublist
                   (spec_feedback unicode_lower unicode_decimal
                      COMMON_PASSWORDS password dictionary)
                   ALL_MESSAGES).
  { unfold spec_feedback.
    apply (filtered_sublist
             (spec_checks unicode_lower unicode_decimal COMMON_PASSWORDS
                password dictionary)). }
  split; [exact Hsub|]. split.
  - exact (sublist_NoDup _ _ messages_distinct Hsub).
  - apply sublist_length in Hsub. exact Hsub.
Qed.

(** The feedback is empty exactly when the password is not in the common
    set, has at least 12 characters, triggers no dictionary match, has no
    penalty and has an uppercase letter, a digit and a punctuation
    character. No check asks for a lowercase letter. *)
Theorem feedback_empty_iff
    (password : str) (dictionary : option (gset str)) :
  exists (feedback : list string) (penalty : Z),
    get_password_feedback unicode_lower unicode_decimal COMMON_PASSWORDS
      password dictionary
    = Return (feedback, penalty)
    /\ (feedback = []
        <-> (str_lower unicode_lower password ∉ COMMON_PASSWORDS)
            /\ 12 <= length password
            /\ dictionary_triggers unicode_lower password dictionary = false
            /\ penalty = 0%Z
            /\ existsb upper_class password = true
            /\ existsb (decimal_class unicode_decimal) password = true
            /\ existsb punctuation_class password = true).
Proof.
  eexists _, _. split; [apply get_password_feedback_returns|].
  pose proof (penalty_nonneg unicode_lower password) as Hpen.
  unfold spec_feedback, spec_checks.
  destruct (bool_decide_reflect
              (str_lower unicode_lower password ∈ COMMON_PASSWORDS)),
    (Nat.ltb_spec (length password) 8),
    (dictionary_triggers unicode_lower password dictionary),
    (Z.ltb_spec 0
       (penalty_for_repeated_and_sequential_patterns unicode_lower password)),
    (Nat.ltb_spec (length password) 12),
    (existsb upper_class password),
    (existsb (decimal_class unicode_decimal) password),
    (existsb punctuation_class password); simpl;
    (split;
     [ intros Hnil; try discriminate Hnil; repeat split; auto; lia
     | intros (G1 & G2 & G3 & G4 & G5 & G6 & G7);
       first [ reflexivity | contradiction | discriminate | lia ] ]).
Qed.

(** ** More on the dictionary scanner *)

(** When every word of the dictionary has fewer than 4 characters, the
    scanner finds a match only if the whole lowercased password is a
    word. *)
Theorem short_words_match_whole_only (password : str) (d : gset str) :
  (forall w : str, w ∈ d -> length w < 4) ->
  exists b : bool,
    check_dictionary_words unicode_lower password (Some d) = Return b
    /\ (b = true <-> str_lower unicode_lower password ∈ d).
Proof.
  intros Hshort.
  destruct (check_dictionary_words_set unicode_lower password d)
    as [b [Hb Hiff]].
  exists b. split; [exact Hb|]. rewrite Hiff.
  unfold has_dictionary_word. split; [|auto].
  intros [Hin | (a & w & b' & _ & Hlen & Hin)]; [exact Hin|].
  apply Hshort in Hin. lia.
Qed.

(** A dictionary word of at least 4 ASCII characters is found in any mix
    of cases and anywhere in the password, and the dictionary message
    follows. *)
Theorem embedded_word_found (w a b : str) (d : gset str) :
  Forall (fun c => is_ascii c = true) w ->
  4 <= length w ->
  map ascii_lower w ∈ d ->
  check_dictionary_words unicode_lower (a ++ w ++ b) (Some d) = Return true
  /\ exists (feedback : list string) (penalty : Z),
       get_password_feedback unicode_lower unicode_decimal COMMON_PASSWORDS
         (a ++ w ++ b) (Some d)
       = Return (feedback, penalty)
       /\ In MSG_DICTIONARY feedback.
Proof.
  intros Hascii Hlen Hin.
  assert (Hcheck : check_dictionary_words unicode_lower (a ++ w ++ b) (Some d)
                   = Return true).
  { destruct (check_dictionary_words_set unicode_lower (a ++ w ++ b) d)
      as [hit [Hhit Hiff]].
    rewrite Hhit. f_equal. apply Hiff. right.
    destruct (str_lower_keeps_run unicode_lower w a b Hascii)
      as (a' & b' & Hlower).
    exists a', (map ascii_lower w), b'.
    split; [exact Hlower|]. split; [rewrite length_map; exact Hlen|].
    exact Hin. }
  split; [exact Hcheck|].
  eexists _, _. split; [apply get_password_feedback_returns|].
  apply dictionary_message. unfold dictionary_triggers.
  rewrite Hcheck. reflexivity.
Qed.

(** A larger dictionary finds at least what a smaller one finds. *)
Theorem scanner_monotone (password : str) (d d' : gset str) :
  d ⊆ d' ->
  check_dictionary_words unicode_lower password (Some d) = Return true ->
  check_dictionary_words unicode_lower password (Some d') = Return true.
Proof.
  intros Hsub Hhit.
  destruct (check_dictionary_words_set unicode_lower password d)
    as [b [Hb Hiff]].
  destruct (check_dictionary_words_set unicode_lower password d')
    as [b' [Hb' Hiff']].
  rewrite Hb'. f_equal. apply Hiff'.
  assert (Htrue : b = true) by congruence.
  apply Hiff in Htrue. unfold has_dictionary_word in *.
  destruct Htrue as [Hin | (a & w & c & Heq & Hlen & Hin)].
  - left. apply Hsub. exact Hin.
  - right. exists a, w, c. split; [exact Heq|]. split; [exact Hlen|].
    apply Hsub. exact Hin.
Qed.

Lemma ascii_lower_not_upper (c : char) : upper_class (ascii_lower c) = false.
Proof.
  unfold ascii_lower. destruct (upper_class c) eqn:Hupper; [|exact Hupper].
  unfold upper_class in *. apply andb_true_iff in Hupper.
  destruct Hupper as [Hlo Hhi]. apply N.leb_le in Hlo, Hhi.
  apply andb_false_iff. right. apply N.leb_gt. lia.
Qed.

(** The scanner lowercases the password and not the dictionary: for an
    ASCII password, a dictionary entry with an uppercase ASCII letter
    never matches, and the scan gives the same with or without it. *)
Theorem uppercase_entry_never_matches
    (password w : str) (d : gset str) :
  Forall (fun c => is_ascii c = true) password ->
  (exists c : char, In c w /\ upper_class c = true) ->
  check_dictionary_words unicode_lower password (Some d)
  = check_dictionary_words unicode_lower password (Some (d ∖ {[ w ]})).
Proof.
  intros Hascii (c & Hc & Hupper).
  assert (Hlower : forall x pre post,
             str_lower unicode_lower password = pre ++ x ++ post -> x <> w).
  { intros x pre post Heq ->.
    rewrite (str_lower_ascii unicode_lower password Hascii) in Heq.
    assert (Hin : In c (map ascii_lower password)).
    { rewrite Heq. apply in_or_app. right. apply in_or_app. left. exact Hc. }
    apply in_map_iff in Hin. destruct Hin as (c0 & <- & _).
    rewrite ascii_lower_not_upper in Hupper. discriminate Hupper. }
  assert (Hsame : forall x pre post,
             str_lower unicode_lower password = pre ++ x ++ post ->
             x ∈ d <-> x ∈ d ∖ {[ w ]}).
  { intros x pre post Heq. specialize (Hlower x pre post Heq).
    rewrite elem_of_difference, elem_of_singleton.
    split; [intros Hx; split; [exact Hx | exact Hlower]
           | intros [Hx _]; exact Hx]. }
  destruct (check_dictionary_words_set unicode_lower password d)
    as [b [Hb Hiff]].
  destruct (check_dictionary_words_set unicode_lower password (d ∖ {[ w ]}))
    as [b' [Hb' Hiff']].
  rewrite Hb, Hb'. f_equal.
  assert (Hequiv : has_dictionary_word d (str_lower unicode_lower password)
                   <-> has_dictionary_word (d ∖ {[ w ]})
                         (str_lower unicode_lower password)).
  { unfold has_dictionary_word. split.
    - intros [Hin | (pre & x & post & Heq & Hlen & Hin)].
      + left. apply (Hsame _ [] []); [|exact Hin].
        rewrite app_nil_r. reflexivity.
      + right. exists pre, x, post. split; [exact Heq|].
        split; [exact Hlen|]. apply (Hsame _ pre post Heq). exact Hin.
    - intros [Hin | (pre & x & post & Heq & Hlen & Hin)].
      + left. apply (Hsame _ [] []); [|exact Hin].
        rewrite app_nil_r. reflexivity.
      + right. exists pre, x, post. split; [exact Heq|].
        split; [exact Hlen|]. apply (Hsame _ pre post Heq). exact Hin. }
  destruct b, b'; try reflexivity.
  - assert (Hf : false = true) by (apply Hiff', Hequiv, Hiff; reflexivity).
    discriminate Hf.
  - assert (Hf : false = true) by (apply Hiff, Hequiv, Hiff'; reflexivity).
    discriminate Hf.
Qed.

(** ** Reading direction *)

Lemma re_search_repeat_rev (password : str) :
  re_search_repeat (rev password) = re_search_repeat password.
Proof.
  assert (Hone : forall p, re_search_repeat p = true ->
                           re_search_repeat (rev p) = true).
  { intros p Hp. apply re_search_repeat_spec in Hp.
    destruct Hp as (a & c & b & -> & Hc). apply re_search_repeat_spec.
    exists (rev b), c, (rev a). split; [|exact Hc].
    rewrite !rev_app_distr. simpl. rewrite <- !app_assoc. reflexivity. }
  destruct (re_search_repeat password) eqn:Hp.
  - apply Hone. exact Hp.
  - destruct (re_search_repeat (rev password)) eqn:Hr; [|reflexivity].
    apply Hone in Hr. rewrite rev_involutive in Hr. congruence.
Qed.

Lemma mirrored_indices (n : nat) :
  map (fun i => n - 1 - i) (seq 0 n) = rev (seq 0 n).
Proof.
  apply (nth_ext _ _ 0 0).
  - rewrite length_map, length_rev. reflexivity.
  - rewrite length_map, length_seq. intros i Hi.
    rewrite rev_nth by (rewrite length_seq; exact Hi).
    rewrite length_seq, seq_nth by lia.
    rewrite (nth_indep _ 0 (n - 1 - 0))
      by (rewrite length_map, length_seq; exact Hi).
    change (n - 1 - 0) with ((fun i => n - 1 - i) 0).
    rewrite map_nth, seq_nth by lia. lia.
Qed.

Lemma filter_map_length {A B : Type} (f : B -> bool) (m : A -> B)
    (l : list A) :
  length (List.filter (fun x => f (m x)) l)
  = length (List.filter f (map m l)).
Proof.
  induction l as [|x l IH]; [reflexivity|].
  simpl. destruct (f (m x)); simpl; rewrite IH; reflexivity.
Qed.

Lemma sequential_triplet_rev (password : str) (i : nat) :
  i < length password - 2 ->
  sequential_triplet (rev password) i
  = sequential_triplet password (length password - 2 - 1 - i).
Proof.
  intros Hi.
  unfold sequential_triplet, ascending_triplet, descending_triplet, ord.
  rewrite !rev_nth by lia.
  replace (length password - S (i + 2))
    with (length password - 2 - 1 - i) by lia.
  replace (length password - S (i + 1))
    with (length password - 2 - 1 - i + 1) by lia.
  replace (length password - S i)
    with (length password - 2 - 1 - i + 2) by lia.
  generalize (Z.of_N (nth (length password - 2 - 1 - i) password 0%N))
    (Z.of_N (nth (length password - 2 - 1 - i + 1) password 0%N))
    (Z.of_N (nth (length password - 2 - 1 - i + 2) password 0%N)).
  intros c0 c1 c2.
  destruct (Z.eqb_spec c1 (c2 + 1)), (Z.eqb_spec c0 (c1 + 1)),
    (Z.eqb_spec c1 (c2 - 1)), (Z.eqb_spec c0 (c1 - 1)),
    (Z.eqb_spec c1 (c0 + 1)), (Z.eqb_spec c2 (c1 + 1)),
    (Z.eqb_spec c1 (c0 - 1)), (Z.eqb_spec c2 (c1 - 1));
    simpl; try reflexivity; lia.
Qed.

Lemma sequential_count_rev (password : str) :
  spec_sequential_count (rev password) = spec_sequential_count password.
Proof.
  unfold spec_sequential_count. rewrite length_rev.
  rewrite (filter_ext_in
             (sequential_triplet (rev password))
             (fun i => sequential_triplet password
                         (length password - 2 - 1 - i))).
  - rewrite (filter_map_length (sequential_triplet password)
               (fun i => length password - 2 - 1 - i)).
    rewrite mirrored_indices, filter_rev, length_rev. reflexivity.
  - intros i Hi. apply in_seq in Hi.
    apply sequential_triplet_rev. lia.
Qed.

(** The repeat rule and the sequential rule do not depend on the reading
    direction: a password and its reverse differ in penalty only by what
    the keyboard patterns give. *)
Theorem penalty_reversed (password : str) :
  (penalty_for_repeated_and_sequential_patterns unicode_lower (rev password)
   - 10 * Z.of_nat (spec_keyboard_count unicode_lower (rev password))
   = penalty_for_repeated_and_sequential_patterns unicode_lower password
     - 10 * Z.of_nat (spec_keyboard_count unicode_lower password))%Z.
Proof.
  rewrite !penalty_decomposition. unfold repeat_contribution.
  rewrite re_search_repeat_rev, sequential_count_rev. lia.
Qed.

End Consequences.

(** ** Runs of the loader, the scanner and the rating *)

Lemma missing_word_list_witness :
  load_common_passwords no_unicode_lower no_unicode_space
    (fun _ => Missing) (str_of "rockyou.txt")
  = (∅, [str_of "Error: Could not find the file: " ++ str_of "rockyou.txt"])
  /\ exists r : EvaluationResult,
       evaluate_password_strength no_unicode_lower no_unicode_decimal
         (fst (load_common_passwords no_unicode_lower no_unicode_space
                 (fun _ => Missing) (str_of "rockyou.txt")))
         (str_of "password") None
       = Return r
       /\ ~ In MSG_COMMON (feedback r).
Proof.
  apply missing_word_list_degrades. reflexivity.
Defined.

Lemma too_common_iff_listed_witness :
  exists r : EvaluationResult,
    evaluate_password_strength no_unicode_lower no_unicode_decimal
      (fst (load_common_passwords no_unicode_lower no_unicode_space
              (fun _ => Lines [str_of " LetMeIn" ++ [10%N]; [10%N]])
              (str_of "rockyou.txt")))
      (str_of "letmein") None
    = Return r
    /\ (In MSG_COMMON (feedback r)
        <-> exists line : str,
              In line [str_of " LetMeIn" ++ [10%N]; [10%N]]
              /\ str_strip no_unicode_space line <> []
              /\ str_lower no_unicode_lower (str_strip no_unicode_space line)
                 = str_lower no_unicode_lower (str_of "letmein")).
Proof.
  apply (too_common_iff_listed no_unicode_lower no_unicode_decimal
           no_unicode_space (fun _ => Lines [str_of " LetMeIn" ++ [10%N];
                                             [10%N]])).
  reflexivity.
Defined.

Lemma load_common_passwords_skips_blank_witness :
  load_common_passwords no_unicode_lower no_unicode_space
    (fun _ => Lines ([str_of "letmein"] ++ [32; 9; 10]%N :: [str_of "admin"]))
    (str_of "rockyou.txt")
  = load_common_passwords no_unicode_lower no_unicode_space
      (fun _ => Lines ([str_of "letmein"] ++ [str_of "admin"]))
      (str_of "rockyou.txt").
Proof.
  apply load_common_passwords_skips_blank. reflexivity.
Defined.

Lemma padded_password_never_common_witness :
  exists r : EvaluationResult,
    evaluate_password_strength no_unicode_lower no_unicode_decimal
      (fst (load_common_passwords no_unicode_lower no_unicode_space
              (fun _ => Lines [str_of " letmein"; str_of "letmein"])
              (str_of "rockyou.txt")))
      (str_of " letmein") None
    = Return r
    /\ ~ In MSG_COMMON (feedback r).
Proof.
  apply (padded_password_never_common no_unicode_lower no_unicode_decimal
           no_unicode_space
           (fun _ => Lines [str_of " letmein"; str_of "letmein"])
           (str_of "rockyou.txt") [str_of " letmein"; str_of "letmein"]).
  - reflexivity.
  - repeat constructor.
  - repeat constructor.
  - exists 32%N, (str_of "letmein"). split; [left; reflexivity | reflexivity].
Defined.

Lemma repeat_rule_exact_witness :
  repeat_contribution (str_of "baaad") = 10%Z.
Proof.
  apply (repeat_rule_exact (str_of "baaad")).
  - intros c [<- | [<- | [<- | [<- | [<- | []]]]]]; discriminate.
  - exists (str_of "b"), 97%N, (str_of "d"). reflexivity.
Defined.

Lemma keyboard_pattern_any_case_witness :
  exists (feedback : list string) (penalty : Z),
    get_password_feedback no_unicode_lower no_unicode_decimal ∅
      (str_of "my" ++ str_of "QwErTy" ++ str_of "!") None
    = Return (feedback, penalty)
    /\ (10 <= penalty)%Z
    /\ In MSG_PATTERNS feedback.
Proof.
  apply keyboard_pattern_any_case.
  - repeat constructor.
  - left. reflexivity.
Defined.

Lemma short_password_rating_witness :
  exists r : EvaluationResult,
    evaluate_password_strength no_unicode_lower no_unicode_decimal ∅
      (str_of "aB3!") None
    = Return r
    /\ strength r = "Very Weak"%string.
Proof.
  destruct (short_password_rating no_unicode_lower no_unicode_decimal ∅
              (str_of "aB3!") None) as (r & Hr & Hweak & _).
  exists r. split; [exact Hr|]. apply Hweak. simpl. lia.
Defined.

Lemma short_words_match_whole_only_witness :
  exists b : bool,
    check_dictionary_words no_unicode_lower (str_of "xabcx")
      (Some {[ str_of "abc" ]})
    = Return b
    /\ (b = true
        <-> str_lower no_unicode_lower (str_of "xabcx") ∈
              ({[ str_of "abc" ]} : gset str)).
Proof.
  apply short_words_match_whole_only.
  intros w Hw. apply elem_of_singleton in Hw. subst w. simpl. lia.
Defined.

Lemma embedded_word_found_witness :
  check_dictionary_words no_unicode_lower
    (str_of "my" ++ str_of "PassWord" ++ str_of "1")
    (Some {[ str_of "password" ]})
  = Return true
  /\ exists (feedback : list string) (penalty : Z),
       get_password_feedback no_unicode_lower no_unicode_decimal ∅
         (str_of "my" ++ str_of "PassWord" ++ str_of "1")
         (Some {[ str_of "password" ]})
       = Return (feedback, penalty)
       /\ In MSG_DICTIONARY feedback.
Proof.
  apply embedded_word_found.
  - repeat constructor.
  - simpl. lia.
  - apply elem_of_singleton. reflexivity.
Defined.

Lemma scanner_monotone_witness :
  check_dictionary_words no_unicode_lower (str_of "welcome1")
    (Some ({[ str_of "welcome" ]} ∪ {[ str_of "login" ]}))
  = Return true.
Proof.
  apply (scanner_monotone no_unicode_lower (str_of "welcome1")
           {[ str_of "welcome" ]}).
  - apply union_subseteq_l.
  - vm_compute. reflexivity.
Defined.

Lemma uppercase_entry_never_matches_witness :
  check_dictionary_words no_unicode_lower (str_of "admin")
    (Some ({[ str_of "Admin" ]} ∪ {[ str_of "user" ]}))
  = check_dictionary_words no_unicode_lower (str_of "admin")
      (Some (({[ str_of "Admin" ]} ∪ {[ str_of "user" ]})
             ∖ {[ str_of "Admin" ]})).
Proof.
  apply (uppercase_entry_never_matches no_unicode_lower
           (str_of "admin") (str_of "Admin")
           ({[ str_of "Admin" ]} ∪ {[ str_of "user" ]})).
  - repeat constructor.
  - exists 65%N. split; [left; reflexivity | reflexivity].
Defined.
